(** * BalTrj: 2-D ballistic trajectory with quadratic drag

    A shallow embedding of [BalTrj.py]: the equation of motion [derv], the
    scan over the integrated sample table (apex index [m], truncation index
    [n]), and the two event refinements by three-point Lagrange
    interpolation.

    Numbers.  The script computes in IEEE double precision through numpy,
    where a division by zero does not raise but yields an infinity or a NaN.
    A [float] here is a real number or one of the three special values;
    finite arithmetic is exact (no rounding, no overflow, no signed zero).

    Failure.  The exceptions the script can raise on its own are the
    out-of-range index error of numpy indexing, [Raise IndexError] in the
    [result] type, and the [ZeroDivisionError] of a division between two
    plain Python numbers, which the apex refinement meets when its fit is
    constant.  Negative indices count from the end, as in Python.

    The output of [odeint] is an input of the model: [yint] is any table of
    rows, [t] the time grid it was computed on. *)

From Stdlib Require Import Reals Lra Lia ZArith List Bool.
Import ListNotations.

Open Scope R_scope.

(** ** numpy floats *)

Inductive float : Type :=
| Fin (r : R)
| PInf
| NInf
| NaN.

Definition Rsgn (r : R) : comparison :=
  if Rlt_dec r 0 then Lt else if Rlt_dec 0 r then Gt else Eq.

(** The infinity of a given sign; a zero sign stands for [0/0] or [0*inf]. *)
Definition inf_of (s : comparison) : float :=
  match s with Lt => NInf | Gt => PInf | Eq => NaN end.

Definition is_finite (a : float) : bool :=
  match a with Fin _ => true | _ => false end.

Definition fneg (a : float) : float :=
  match a with
  | Fin x => Fin (- x)
  | PInf => NInf
  | NInf => PInf
  | NaN => NaN
  end.

Definition fadd (a b : float) : float :=
  match a, b with
  | Fin x, Fin y => Fin (x + y)
  | NaN, _ | _, NaN => NaN
  | PInf, NInf | NInf, PInf => NaN
  | PInf, _ | _, PInf => PInf
  | NInf, _ | _, NInf => NInf
  end.

Definition fsub (a b : float) : float := fadd a (fneg b).

Definition fmul (a b : float) : float :=
  match a, b with
  | Fin x, Fin y => Fin (x * y)
  | NaN, _ | _, NaN => NaN
  | Fin x, PInf | PInf, Fin x => inf_of (Rsgn x)
  | Fin x, NInf | NInf, Fin x => inf_of (CompOpp (Rsgn x))
  | PInf, PInf | NInf, NInf => PInf
  | PInf, NInf | NInf, PInf => NInf
  end.

Definition fdiv (a b : float) : float :=
  match a, b with
  | Fin x, Fin y => if Req_dec_T y 0 then inf_of (Rsgn x) else Fin (x / y)
  | NaN, _ | _, NaN => NaN
  | Fin _, (PInf | NInf) => Fin 0
  | PInf, Fin y => if Rlt_dec y 0 then NInf else PInf
  | NInf, Fin y => if Rlt_dec y 0 then PInf else NInf
  | (PInf | NInf), (PInf | NInf) => NaN
  end.

(** [a < b]; every comparison with a NaN is false. *)
Definition fltb (a b : float) : bool :=
  match a, b with
  | Fin x, Fin y => if Rlt_dec x y then true else false
  | NInf, (Fin _ | PInf) => true
  | Fin _, PInf => true
  | _, _ => false
  end.

(** [a ** 2] and [a ** 0.5] *)
Definition fsqr (a : float) : float := fmul a a.

Definition fsqrt (a : float) : float :=
  match a with
  | Fin x => if Rlt_dec x 0 then NaN else Fin (sqrt x)
  | PInf => PInf
  | NInf | NaN => NaN
  end.

(** [np.arctan] and [np.degrees] *)
Definition arctan (a : float) : float :=
  match a with
  | Fin x => Fin (atan x)
  | PInf => Fin (PI / 2)
  | NInf => Fin (- (PI / 2))
  | NaN => NaN
  end.

Definition degrees (a : float) : float := fmul a (Fin (180 / PI)).

Declare Scope float_scope.
Delimit Scope float_scope with fl.
Notation "a [+] b" := (fadd a b) (at level 50, left associativity) : float_scope.
Notation "a [-] b" := (fsub a b) (at level 50, left associativity) : float_scope.
Notation "a [*] b" := (fmul a b) (at level 40, left associativity) : float_scope.
Notation "a [/] b" := (fdiv a b) (at level 40, left associativity) : float_scope.
Notation "a [<] b" := (fltb a b) (at level 70, no associativity) : float_scope.
Open Scope float_scope.

(** ** Exceptions and Python indexing *)

(** [IndexError] is what numpy indexing raises and [ZeroDivisionError]
    what the division of two plain Python numbers by zero raises.  The other
    constructors name the error conditions of the design's taxonomy; no path
    of the script raises any of them. *)
Inductive exn : Type :=
| IndexError
| ZeroDivisionError
| InvalidParameters
| IntegrationFailure
| NoApexFound
| NoImpactFound
| DegenerateFit
| InsufficientSamples.

Inductive result (A : Type) : Type :=
| Ok (a : A)
| Raise (e : exn).
Arguments Ok {A} a.
Arguments Raise {A} e.

Definition bind {A B : Type} (c : result A) (k : A -> result B) : result B :=
  match c with
  | Ok a => k a
  | Raise e => Raise e
  end.

Notation "x <- c ;; k" := (bind c (fun x => k))
  (at level 61, c at next level, right associativity).

(** [l[i]] for a list or a numpy axis of length [N]: [0 <= i < N] selects
    from the front, [-N <= i < 0] from the end, anything else raises. *)
Definition getitem {A : Type} (l : list A) (i : Z) : result A :=
  let N := Z.of_nat (length l) in
  let j := if (i <? 0)%Z then (N + i)%Z else i in
  if ((0 <=? j) && (j <? N))%Z
  then match nth_error l (Z.to_nat j) with
       | Some a => Ok a
       | None => Raise IndexError
       end
  else Raise IndexError.

(** A row of the solution table: columns 0..3 are the horizontal velocity,
    the vertical velocity, the horizontal position and the altitude. *)
Record row : Type := Row { col0 : float; col1 : float; col2 : float; col3 : float }.

(** [yint[i, j]] for a constant column [j]. *)
Definition getcell (yint : list row) (i : Z) (col : row -> float) : result float :=
  r <- getitem yint i ;; Ok (col r).

(** ** numpy [poly1d] and scipy [lagrange]

    A polynomial is its coefficient array, highest power first, with the
    leading zeros removed by every constructor call. *)

Definition poly : Type := list float.

Fixpoint trim_zeros (c : list float) : list float :=
  match c with
  | Fin r :: c' => if Req_dec_T r 0 then trim_zeros c' else c
  | _ => c
  end.

Definition poly1d (c : list float) : poly :=
  match trim_zeros c with
  | [] => [Fin 0]
  | c' => c'
  end.

Definition order (p : poly) : nat := (length p - 1)%nat.

(** A number as the interpreter sees it: a numpy float, whose arithmetic
    never raises, or a plain Python number. *)
Inductive pynum : Type :=
| Np (a : float)
| Py (r : R).

Definition as_float (a : pynum) : float :=
  match a with
  | Np x => x
  | Py r => Fin r
  end.

(** [-a], [a*b] and [a/b]: between two plain numbers the operation is
    Python's, and a division by zero raises; as soon as one operand is a
    numpy float the operation is numpy's. *)
Definition py_neg (a : pynum) : pynum :=
  match a with
  | Np x => Np (fneg x)
  | Py r => Py (- r)
  end.

Definition py_mul (a b : pynum) : pynum :=
  match a, b with
  | Py x, Py y => Py (x * y)
  | _, _ => Np (as_float a [*] as_float b)
  end.

Definition py_div (a b : pynum) : result pynum :=
  match a, b with
  | Py x, Py y => if Req_dec_T y 0 then Raise ZeroDivisionError else Ok (Py (x / y))
  | _, _ => Ok (Np (as_float a [/] as_float b))
  end.

(** [p[k]] as [poly1d.__getitem__] has it in the numpy releases that
    accept the float sample count of line 26: the coefficient of the power
    [k], a numpy float, and the Python integer [0] above the order.
<<
    ind = self.order - val
    if val > self.order: return 0
    if val < 0: return 0
    return self.coeffs[ind]
>> *)
Definition coef (p : poly) (k : nat) : pynum :=
  if (order p <? k)%nat then Py 0 else Np (nth (order p - k) p (Fin 0)).

(** [p(x)], Horner's scheme started from zero as [np.polyval] does. *)
Definition polyval (p : poly) (x : float) : float :=
  fold_left (fun y c => y [*] x [+] c) p (Fin 0).

(** Element-wise sum of two arrays aligned at the head; what is left of
    the longer one is kept. *)
Fixpoint addh (u v : list float) : list float :=
  match u, v with
  | [], _ => v
  | _, [] => u
  | a :: u', b :: v' => (a [+] b) :: addh u' v'
  end.

(** [np.convolve(a, b)]: the coefficient array of the product. *)
Fixpoint convolve (a b : list float) : list float :=
  match a with
  | [] => []
  | a0 :: a' =>
      match map (fmul a0) b with
      | [] => []
      | h :: tl => h :: addh tl (convolve a' b)
      end
  end.

(** [np.polyadd]: the shorter array is padded with leading zeros. *)
Definition pad (k : nat) (c : list float) : list float := repeat (Fin 0) k ++ c.

Definition polyadd (a b : list float) : list float :=
  let la := length a in
  let lb := length b in
  map (fun ab => fst ab [+] snd ab) (combine (pad (lb - la) a) (pad (la - lb) b)).

Definition poly_add (p q : poly) : poly := poly1d (polyadd p q).
Definition poly_mul (p q : poly) : poly := poly1d (convolve p q).
Definition poly_div (p : poly) (s : float) : poly := poly1d (map (fun c => c [/] s) p).

(** [scipy.interpolate.lagrange(x, w)]:
<<
    p = poly1d(0.0)
    for j in range(M):
        pt = poly1d(w[j])
        for k in range(M):
            if k == j: continue
            fac = x[j]-x[k]
            pt *= poly1d([1.0, -x[k]])/fac
        p += pt
>>
    Both arguments have [M] entries at every call in the script. *)
Definition lagrange_term (x w : list float) (j : nat) : poly :=
  fold_left
    (fun pt k =>
       if (k =? j)%nat then pt
       else
         let fac := nth j x (Fin 0) [-] nth k x (Fin 0) in
         poly_mul pt (poly_div (poly1d [Fin 1; fneg (nth k x (Fin 0))]) fac))
    (seq 0 (length x))
    (poly1d [nth j w (Fin 0)]).

Definition lagrange (x w : list float) : poly :=
  fold_left (fun p j => poly_add p (lagrange_term x w j))
    (seq 0 (length x)) (poly1d [Fin 0]).

(** ** The script *)

(** Acceleration of gravity, gravity vector and drag coefficient; the
    terminal velocity [tv] is an input parameter.  (The division of [dc] is
    one of Python floats, which raises for [tv = 0]; every statement below
    takes [tv <> 0].) *)
Definition gc : float := Fin (980665 / 100000).
Definition vg : float * float := (Fin 0, fneg gc).
Definition dc (tv : float) : float := gc [/] fsqr tv.

(** [np.linalg.norm] of a 2-vector. *)
Definition norm (v : float * float) : float :=
  fsqrt (fsqr (fst v) [+] fsqr (snd v)).

(** The four differentials; the time argument is not used. *)
Definition derv (tv : float) (yint : row) (t : float) : row :=
  let vv := (col0 yint, col1 yint) in
  let vn := norm vv in
  let vu := (fst vv [/] vn, snd vv [/] vn) in
  let vd := ((fneg (dc tv) [*] fsqr vn) [*] fst vu,
             (fneg (dc tv) [*] fsqr vn) [*] snd vu) in
  let va := (fst vg [+] fst vd, snd vg [+] snd vd) in
  let ode0 := fst va in
  let ode1 := snd va in
  let ode2 := col0 yint in
  let ode3 := col1 yint in
  Row ode0 ode1 ode2 ode3.

(** One line of output: time, velocity, angle, height, distance. *)
Record line : Type :=
  Line { l_time : float; l_vel : float; l_angle : float;
         l_height : float; l_dist : float }.

(** The table loop.  [xs] is what is left of the iteration over [yint];
    [n] counts the lines, [m] is the saved apex line, [out] the lines
    printed so far.  The loop ends by [break] at a negative altitude or by
    exhausting the table; both leave [(n, m, out)]. *)
Fixpoint table_loop (t : list float) (yint xs : list row)
    (n m : Z) (out : list line) : result (Z * Z * list line) :=
  match xs with
  | [] => Ok (n, m, out)
  | x :: xs' =>
      v0 <- getcell yint n col1 ;;
      v1 <- getcell yint (n + 1) col1 ;;
      let m' := if v0 [*] v1 [<] Fin 0 then n else m in
      if col3 x [<] Fin 0 then Ok (n, m', out)
      else
        let vn := fsqrt (fsqr (col0 x) [+] fsqr (col1 x)) in
        let aa := degrees (arctan (col1 x [/] col0 x)) in
        tn <- getitem t n ;;
        table_loop t yint xs' (n + 1) m' (out ++ [Line tn vn aa (col3 x) (col2 x)])
  end.

Definition table (t : list float) (yint : list row) : result (Z * Z * list line) :=
  table_loop t yint yint 0 0 [].

(** Three entries of a column, and of the time grid. *)
Definition cells3 (yint : list row) (i j k : Z) (col : row -> float) : result (list float) :=
  a <- getcell yint i col ;;
  b <- getcell yint j col ;;
  c <- getcell yint k col ;;
  Ok [a; b; c].

Definition times3 (t : list float) (i j k : Z) : result (list float) :=
  a <- getitem t i ;;
  b <- getitem t j ;;
  c <- getitem t k ;;
  Ok [a; b; c].

(** Parameters at the maximum altitude, from the lines [m-1], [m], [m+1].
    In [hx = -phyx[1]/(2.0*phyx[2])] a coefficient above the order of the
    fit is the Python integer [0]: a constant fit divides [0] by [0.0],
    which raises, and a fit of order one divides a numpy float by [0.0],
    which does not. *)
Definition highest (t : list float) (yint : list row) (m : Z) : result line :=
  lhv <- cells3 yint (m - 1) m (m + 1) col0 ;;
  lhx <- cells3 yint (m - 1) m (m + 1) col2 ;;
  lhy <- cells3 yint (m - 1) m (m + 1) col3 ;;
  lht <- times3 t (m - 1) m (m + 1) ;;
  let phyx := lagrange lhx lhy in
  q <- py_div (py_neg (coef phyx 1)) (py_mul (Py 2) (coef phyx 2)) ;;
  let hx := as_float q in
  let hy := polyval phyx hx in
  let phxt := lagrange lhx lht in
  let ht := polyval phxt hx in
  let phxv := lagrange lhx lhv in
  let hv := polyval phxv hx in
  Ok (Line ht hv (Fin 0) hy hx).

(** The impact angle of the script: the one-argument arctangent of the
    quotient of the velocity components. *)
Definition impact_angle (ivx ivy : float) : float :=
  degrees (arctan (ivy [/] ivx)).

(** Parameters at the impact, from the lines [n-2], [n-1], [n]. *)
Definition impact (t : list float) (yint : list row) (n : Z) : result line :=
  lvx <- cells3 yint (n - 2) (n - 1) n col0 ;;
  lvy <- cells3 yint (n - 2) (n - 1) n col1 ;;
  lgx <- cells3 yint (n - 2) (n - 1) n col2 ;;
  lgy <- cells3 yint (n - 2) (n - 1) n col3 ;;
  lgt <- times3 t (n - 2) (n - 1) n ;;
  let pfyx := lagrange lgy lgx in
  let xid := polyval pfyx (Fin 0) in
  let pfyt := lagrange lgy lgt in
  let xit := polyval pfyt (Fin 0) in
  let pfvx := lagrange lgy lvx in
  let ivx := polyval pfvx (Fin 0) in
  let pfvy := lagrange lgy lvy in
  let ivy := polyval pfvy (Fin 0) in
  let iv := fsqrt (fsqr ivx [+] fsqr ivy) in
  let ia := impact_angle ivx ivy in
  Ok (Line xit iv ia (Fin 0) xid).

(** What a run prints: the table lines, the highest point, the impact
    point. *)
Record report : Type :=
  Report { rows_out : list line; high_out : line; impact_out : line }.

Definition BalTrj (t : list float) (yint : list row) : result report :=
  nmo <- table t yint ;;
  let '(n, m, out) := nmo in
  h <- highest t yint m ;;
  i <- impact t yint n ;;
  Ok (Report out h i).

(** ** Helper definitions for the statements *)

(** [vy[k] * vy[k+1] < 0] and [y[k] < 0] on the table. *)
Definition sign_change (yint : list row) (k : nat) : bool :=
  match nth_error yint k, nth_error yint (S k) with
  | Some a, Some b => col1 a [*] col1 b [<] Fin 0
  | _, _ => false
  end.

Definition below_ground (yint : list row) (k : nat) : bool :=
  match nth_error yint k with
  | Some a => col3 a [<] Fin 0
  | None => false
  end.

(** The table line of the sample [k]. *)
Definition line_of (t : list float) (yint : list row) (k : nat) : line :=
  let x := nth k yint (Row NaN NaN NaN NaN) in
  Line (nth k t NaN)
       (fsqrt (fsqr (col0 x) [+] fsqr (col1 x)))
       (degrees (arctan (col1 x [/] col0 x)))
       (col3 x) (col2 x).

Definition lines_from (t : list float) (yint : list row) (k j : nat) : list line :=
  map (line_of t yint) (seq k j).

(** The value of [m] after the sign tests of the lines [k], ..., [k+j]. *)
Fixpoint m_after (yint : list row) (k j : nat) (m : Z) : Z :=
  let m' := if sign_change yint k then Z.of_nat k else m in
  match j with
  | O => m'
  | S j' => m_after yint (S k) j' m'
  end.

(** The real value of a finite float. *)
Definition to_R (a : float) : R :=
  match a with Fin r => r | _ => 0 end.

(** The real polynomial function of a coefficient array. *)
Definition evalR (p : list float) (x : R) : R :=
  fold_left (fun y c => y * x + to_R c) p 0.

Definition all_finite (p : list float) : Prop :=
  Forall (fun c => is_finite c = true) p.

(** [p] is a finite polynomial with at most [d] coefficients whose
    function is [f]. *)
Definition represents (p : poly) (d : nat) (f : R -> R) : Prop :=
  all_finite p /\ (length p <= d)%nat /\ forall x, evalR p x = f x.

(** The Lagrange polynomial through [(x0, w0)], [(x1, w1)], [(x2, w2)]. *)
Definition lagrange3 (x0 x1 x2 w0 w1 w2 : R) (x : R) : R :=
  w0 * ((x - x1) / (x0 - x1)) * ((x - x2) / (x0 - x2)) +
  w1 * ((x - x0) / (x1 - x0)) * ((x - x2) / (x1 - x2)) +
  w2 * ((x - x0) / (x2 - x0)) * ((x - x1) / (x2 - x1)).

(** The quadratic [a*x^2 + b*x + c], on the reals and as [polyval]
    evaluates it on floats. *)
Definition quadR (a b c : R) (x : R) : R := a * x ^ 2 + b * x + c.

Definition quad (a b c : R) (x : float) : float :=
  polyval [Fin a; Fin b; Fin c] x.

(** [a*x^2 + b*x + c] passes through the three points. *)
Definition fits (a b c : R) (x0 x1 x2 w0 w1 w2 : R) : Prop :=
  quadR a b c x0 = w0 /\ quadR a b c x1 = w1 /\ quadR a b c x2 = w2.

(** The two-argument arctangent [atan2(y, x)] that the design names for
    the impact angle, in radians, and the conversion to degrees; for
    comparison with [impact_angle]. *)
Definition atan2 (y x : R) : R :=
  if Rlt_dec 0 x then atan (y / x)
  else if Rlt_dec x 0 then
         if Rlt_dec y 0 then atan (y / x) - PI else atan (y / x) + PI
       else if Rlt_dec 0 y then PI / 2
            else if Rlt_dec y 0 then - (PI / 2)
                 else 0.

Definition Rdegrees (r : R) : R := r * (180 / PI).

(** The derivative as the design words it (section 4.1), on the reals:
    speed, unit velocity vector, drag vector, acceleration, and the
    returned quadruple. *)
Definition EquationOfMotion (g tv : R) (vx vy : R) : R * R * R * R :=
  let dcR := g / tv ^ 2 in
  let speed := sqrt (vx ^ 2 + vy ^ 2) in
  let ux := vx / speed in
  let uy := vy / speed in
  let dx := - dcR * speed ^ 2 * ux in
  let dy := - dcR * speed ^ 2 * uy in
  let ax := 0 + dx in
  let ay := - g + dy in
  (ax, ay, vx, vy).

(** A small table in the shape of a flight: the vertical velocity changes
    sign after line 1 and the altitude is negative from line 3 on. *)
Definition flight_t : list float := [Fin 0; Fin 1; Fin 2; Fin 3; Fin 4].

Definition flight_yint : list row :=
  [ Row (Fin 1) (Fin 2) (Fin 0) (Fin 0);
    Row (Fin 1) (Fin 1) (Fin 1) (Fin 2);
    Row (Fin 1) (Fin (-1)) (Fin 2) (Fin 1);
    Row (Fin 1) (Fin (-2)) (Fin 3) (Fin (-1));
    Row (Fin 1) (Fin (-3)) (Fin 4) (Fin (-4)) ].

(** A downward launch sampled twice: the first line of negative altitude
    is the last line of the table. *)
Definition drop_t : list float := [Fin 0; Fin 1].

Definition drop_yint : list row :=
  [ Row (Fin 1) (Fin (-1)) (Fin 0) (Fin 0);
    Row (Fin 1) (Fin (-2)) (Fin 1) (Fin (-1)) ].



(** A downward launch sampled three times: the vertical velocity is
    negative from the start and the altitude is negative from line 1 on. *)
Definition dive_t : list float := [Fin 0; Fin 1; Fin 2].

Definition dive_yint : list row :=
  [ Row (Fin 4) (Fin (-1)) (Fin 0) (Fin 0);
    Row (Fin 3) (Fin (-2)) (Fin (7 / 2)) (Fin (- (3 / 2)));
    Row (Fin 2) (Fin (-3)) (Fin 6) (Fin (-4)) ].



(** A table that never goes below the ground. *)
Definition hover_t : list float := [Fin 0; Fin 1].

Definition hover_yint : list row :=
  [ Row (Fin 1) (Fin 1) (Fin 0) (Fin 0);
    Row (Fin 1) (Fin 1) (Fin 1) (Fin 1) ].

(** A vertical launch: the three horizontal positions coincide. *)
Definition vertical_t : list float := [Fin 0; Fin 1; Fin 2].

Definition vertical_yint : list row :=
  [ Row (Fin 0) (Fin 2) (Fin 0) (Fin 0);
    Row (Fin 0) (Fin 1) (Fin 0) (Fin 2);
    Row (Fin 0) (Fin (-1)) (Fin 0) (Fin 2) ].

(** Values that are an infinity or a NaN, and polynomials whose two lowest
    coefficients are such values. *)
Definition nonfinite (a : float) : Prop := is_finite a = false.

Definition low_nonfinite (p : poly) : Prop :=
  exists a b, nonfinite a /\ nonfinite b /\ (p = [a; b] \/ exists c, p = [c; a; b]).

(** ** Input conversion and time grid *)

(** [np.radians], [np.cos] and [np.sin]. *)
Definition radians (a : float) : float := fmul a (Fin (PI / 180)).

Definition np_cos (a : float) : float :=
  match a with Fin x => Fin (cos x) | _ => NaN end.

Definition np_sin (a : float) : float :=
  match a with Fin x => Fin (sin x) | _ => NaN end.

(** Launch angle in radians, initial velocities and initial values of the
    differentials, from the launch velocity [vel] and the launch angle [ad]
    in degrees. *)
Definition ar (ad : float) : float := radians ad.
Definition vx0 (vel ad : float) : float := vel [*] np_cos (ar ad).
Definition vy0 (vel ad : float) : float := vel [*] np_sin (ar ad).
Definition y0 (vel ad : float) : row := Row (vx0 vel ad) (vy0 vel ad) (Fin 0) (Fin 0).

(** [y[-1] = v] on an array. *)
Definition set_last (l : list R) (v : R) : list R :=
  match l with
  | [] => []
  | _ => removelast l ++ [v]
  end.

(** [np.linspace(start, stop, num)] with the end point included, for finite
    bounds and an integer number of samples; [None] is the [ValueError] of a
    negative number of samples.  The script passes the float [tli/it + 1]
    as the number of samples; its conversion to an integer depends on the
    rounding of the quotient and is left out: the grid is taken with the
    number of samples that the conversion has produced.
<<
    div = num - 1
    y = arange(0, num)
    delta = stop - start
    if num > 1:
        step = delta / div
        if step == 0: y /= div; y = y * delta
        else: y = y * step
    else:
        y = y * delta
    y += start
    if num > 1: y[-1] = stop
>> *)
Definition linspace (start stop : R) (num : Z) : option (list float) :=
  if (num <? 0)%Z then None
  else
    let div := IZR (num - 1) in
    let y := map INR (seq 0 (Z.to_nat num)) in
    let delta := stop - start in
    let y :=
      if (1 <? num)%Z then
        let step := delta / div in
        if Req_dec_T step 0 then map (fun a => a / div * delta) y
        else map (fun a => a * step) y
      else map (fun a => a * delta) y in
    let y := map (fun a => a + start) y in
    let y := if (1 <? num)%Z then set_last y stop else y in
    Some (map Fin y).

(** A table that starts in the launch state of velocity 1 and angle 0. *)
Definition launch_t : list float := [Fin 0; Fin 1; Fin 2].

Definition launch_yint : list row :=
  [ y0 (Fin 1) (Fin 0);
    Row (Fin 1) (Fin (-1)) (Fin 1) (Fin (-1));
    Row (Fin 1) (Fin (-2)) (Fin 2) (Fin (-3)) ].

(** A table whose vertical velocity is exactly zero on line 1, positive
    before and negative after. *)
Definition summit_t : list float := [Fin 0; Fin 1; Fin 2; Fin 3; Fin 4].

Definition summit_yint : list row :=
  [ Row (Fin 1) (Fin 1) (Fin 0) (Fin 0);
    Row (Fin 1) (Fin 0) (Fin 1) (Fin 1);
    Row (Fin 1) (Fin (-1)) (Fin 2) (Fin 1);
    Row (Fin 1) (Fin (-1)) (Fin 3) (Fin (-1));
    Row (Fin 1) (Fin (-1)) (Fin 4) (Fin (-2)) ].

(** Three samples of a flight without drag, at the times 0, 1, 2, with
    gravity 2, horizontal velocity 1 and initial vertical velocity 2. *)
Definition parabola_t : list float := [Fin 0; Fin 1; Fin 2].

Definition parabola_yint : list row :=
  [ Row (Fin 1) (Fin 2) (Fin 0) (Fin 0);
    Row (Fin 1) (Fin 0) (Fin 1) (Fin 1);
    Row (Fin 1) (Fin (-2)) (Fin 2) (Fin 0) ].

(** The slope between two samples and the second divided difference of
    three samples: the leading coefficient of the quadratic through them. *)
Definition slope (xa ya xb yb : R) : R := (yb - ya) / (xb - xa).

Definition curvature (x0 y0 x1 y1 x2 y2 : R) : R :=
  (slope x1 y1 x2 y2 - slope x0 y0 x1 y1) / (x2 - x0).

(** ** Arithmetic on finite values *)

Lemma Rsgn_neg (r : R) : r < 0 -> Rsgn r = Lt.
Proof. intros H. unfold Rsgn. destruct (Rlt_dec r 0); [reflexivity | lra]. Qed.

Lemma Rsgn_pos (r : R) : 0 < r -> Rsgn r = Gt.
Proof.
  intros H. unfold Rsgn.
  destruct (Rlt_dec r 0); [lra |]. destruct (Rlt_dec 0 r); [reflexivity | lra].
Qed.

Lemma Rsgn_zero : Rsgn 0 = Eq.
Proof.
  unfold Rsgn. destruct (Rlt_dec 0 0); [lra |]. destruct (Rlt_dec 0 0); [lra | reflexivity].
Qed.

Lemma fdiv_fin (x y : R) : y <> 0 -> Fin x [/] Fin y = Fin (x / y).
Proof. intros H. simpl. destruct (Req_dec_T y 0); [contradiction | reflexivity]. Qed.

Lemma fdiv_zero (x : R) : Fin x [/] Fin 0 = inf_of (Rsgn x).
Proof. simpl. destruct (Req_dec_T 0 0); [reflexivity | contradiction]. Qed.

Lemma fltb_fin (x y : R) : x < y -> (Fin x [<] Fin y) = true.
Proof. intros H. simpl. destruct (Rlt_dec x y); [reflexivity | contradiction]. Qed.

Lemma fltb_fin_not (x y : R) : ~ x < y -> (Fin x [<] Fin y) = false.
Proof. intros H. simpl. destruct (Rlt_dec x y); [contradiction | reflexivity]. Qed.

Lemma fsqrt_fin (x : R) : 0 <= x -> fsqrt (Fin x) = Fin (sqrt x).
Proof. intros H. simpl. destruct (Rlt_dec x 0); [lra | reflexivity]. Qed.

Lemma is_finite_Fin (a : float) : is_finite a = true -> a = Fin (to_R a).
Proof. destruct a; simpl; intros; congruence. Qed.

(** ** Python indexing *)

Lemma bind_Ok {A B : Type} (a : A) (k : A -> result B) : bind (Ok a) k = k a.
Proof. reflexivity. Qed.

Lemma Ok_inj {A : Type} (a b : A) : Ok a = Ok b -> a = b.
Proof. intros H. congruence. Qed.

Lemma getitem_front {A : Type} (l : list A) (k : nat) (a : A) :
  nth_error l k = Some a -> getitem l (Z.of_nat k) = Ok a.
Proof.
  intros H. unfold getitem.
  assert (Hk : (k < length l)%nat) by (apply nth_error_Some; congruence).
  replace (Z.of_nat k <? 0)%Z with false by lia.
  replace ((0 <=? Z.of_nat k) && (Z.of_nat k <? Z.of_nat (length l)))%Z with true by lia.
  rewrite Nat2Z.id, H. reflexivity.
Qed.

Lemma getitem_beyond {A : Type} (l : list A) (i : Z) :
  (Z.of_nat (length l) <= i)%Z -> getitem l i = Raise IndexError.
Proof.
  intros H. unfold getitem.
  replace (i <? 0)%Z with false by lia.
  replace ((0 <=? i) && (i <? Z.of_nat (length l)))%Z with false by lia.
  reflexivity.
Qed.

Lemma getitem_raises {A : Type} (l : list A) (i : Z) (e : exn) :
  getitem l i = Raise e -> e = IndexError.
Proof.
  unfold getitem.
  destruct ((0 <=? _) && _)%Z; [destruct (nth_error _ _) |]; congruence.
Qed.

Lemma getitem_in_range {A : Type} (l : list A) (i : Z) :
  (- Z.of_nat (length l) <= i < Z.of_nat (length l))%Z ->
  exists a, getitem l i = Ok a.
Proof.
  intros H. unfold getitem.
  set (j := if (i <? 0)%Z then _ else _).
  assert (Hj : (0 <= j < Z.of_nat (length l))%Z)
    by (subst j; destruct (i <? 0)%Z eqn:E; lia).
  replace ((0 <=? j) && (j <? Z.of_nat (length l)))%Z with true by lia.
  destruct (nth_error l (Z.to_nat j)) eqn:E; [eauto |].
  apply nth_error_None in E. lia.
Qed.

(** ** The table loop *)

Lemma skipn_nth_error {A : Type} (l : list A) (k : nat) (a : A) :
  nth_error l k = Some a -> skipn k l = a :: skipn (S k) l.
Proof.
  revert k. induction l as [| b l IH]; intros [| k] H; simpl in *; try discriminate.
  - congruence.
  - apply IH. exact H.
Qed.

Lemma nth_error_some_lt {A : Type} (l : list A) (k : nat) :
  (k < length l)%nat -> exists a, nth_error l k = Some a.
Proof.
  intros H. destruct (nth_error l k) eqn:E; [eauto |].
  apply nth_error_None in E. lia.
Qed.

Lemma line_of_eq (t : list float) (yint : list row) (k : nat) (x : row) (tn : float) :
  nth_error yint k = Some x -> nth_error t k = Some tn ->
  line_of t yint k =
  Line tn (fsqrt (fsqr (col0 x) [+] fsqr (col1 x)))
       (degrees (arctan (col1 x [/] col0 x))) (col3 x) (col2 x).
Proof.
  intros Hx Ht. unfold line_of.
  rewrite (nth_error_nth _ _ _ Hx), (nth_error_nth _ _ _ Ht). reflexivity.
Qed.

(** One pass of the loop body on a line that is followed by another one. *)
Lemma table_loop_body (t : list float) (yint xs : list row) (k : nat)
    (x x' : row) (m : Z) (out : list line) :
  nth_error yint k = Some x -> nth_error yint (S k) = Some x' ->
  table_loop t yint (x :: xs) (Z.of_nat k) m out =
  let m' := if sign_change yint k then Z.of_nat k else m in
  if below_ground yint k then Ok (Z.of_nat k, m', out)
  else tn <- getitem t (Z.of_nat k) ;;
       table_loop t yint xs (Z.of_nat (S k)) m'
         (out ++ [Line tn (fsqrt (fsqr (col0 x) [+] fsqr (col1 x)))
                    (degrees (arctan (col1 x [/] col0 x))) (col3 x) (col2 x)]).
Proof.
  intros Hx Hx'. simpl table_loop. unfold getcell.
  rewrite (getitem_front _ _ _ Hx).
  replace (Z.of_nat k + 1)%Z with (Z.of_nat (S k)) by lia.
  rewrite (getitem_front _ _ _ Hx'). rewrite ?bind_Ok.
  unfold sign_change, below_ground. rewrite Hx, Hx'. reflexivity.
Qed.

(** The loop leaves by [break] at the first line of negative altitude,
    provided that line is not the last one of the table. *)
Lemma table_loop_break (t : list float) (yint : list row) :
  forall (j k : nat) (m : Z) (out : list line),
    (k + j + 1 < length yint)%nat ->
    (k + j <= length t)%nat ->
    (forall i, (k <= i < k + j)%nat -> below_ground yint i = false) ->
    below_ground yint (k + j) = true ->
    table_loop t yint (skipn k yint) (Z.of_nat k) m out =
    Ok (Z.of_nat (k + j), m_after yint k j m, out ++ lines_from t yint k j).
Proof.
  induction j as [| j IH]; intros k m out HN Ht Hpos Hneg.
  - destruct (nth_error_some_lt yint k) as [x Hx]; [lia |].
    destruct (nth_error_some_lt yint (S k)) as [x' Hx']; [lia |].
    rewrite (skipn_nth_error _ _ _ Hx), (table_loop_body _ _ _ _ _ _ _ _ Hx Hx').
    replace (k + 0)%nat with k in * by lia. cbv zeta. rewrite Hneg.
    unfold lines_from. simpl. rewrite app_nil_r. reflexivity.
  - destruct (nth_error_some_lt yint k) as [x Hx]; [lia |].
    destruct (nth_error_some_lt yint (S k)) as [x' Hx']; [lia |].
    destruct (nth_error_some_lt t k) as [tn Htn]; [lia |].
    rewrite (skipn_nth_error _ _ _ Hx), (table_loop_body _ _ _ _ _ _ _ _ Hx Hx').
    cbv zeta. rewrite (Hpos k) by lia.
    rewrite (getitem_front _ _ _ Htn). rewrite ?bind_Ok.
    rewrite IH.
    + replace (S k + j)%nat with (k + S j)%nat by lia.
      unfold lines_from. simpl seq. simpl map.
      rewrite (line_of_eq _ _ _ _ _ Hx Htn), <- app_assoc. reflexivity.
    + lia.
    + lia.
    + intros i Hi. apply Hpos. lia.
    + replace (S k + j)%nat with (k + S j)%nat by lia. exact Hneg.
Qed.

(** Without such a line the loop reaches the last line of the table, where
    the sign test reads one line beyond the end. *)
Lemma table_loop_exhaust (t : list float) (yint : list row) :
  forall (j k : nat) (m : Z) (out : list line),
    (k + j + 1 = length yint)%nat ->
    (forall i, (k <= i < k + j)%nat -> below_ground yint i = false) ->
    table_loop t yint (skipn k yint) (Z.of_nat k) m out = Raise IndexError.
Proof.
  induction j as [| j IH]; intros k m out HN Hpos.
  - destruct (nth_error_some_lt yint k) as [x Hx]; [lia |].
    rewrite (skipn_nth_error _ _ _ Hx). simpl table_loop. unfold getcell.
    rewrite (getitem_front _ _ _ Hx). rewrite ?bind_Ok.
    rewrite getitem_beyond by lia. reflexivity.
  - destruct (nth_error_some_lt yint k) as [x Hx]; [lia |].
    destruct (nth_error_some_lt yint (S k)) as [x' Hx']; [lia |].
    rewrite (skipn_nth_error _ _ _ Hx), (table_loop_body _ _ _ _ _ _ _ _ Hx Hx').
    cbv zeta. rewrite (Hpos k) by lia.
    destruct (getitem t (Z.of_nat k)) as [tn | e] eqn:E.
    + rewrite ?bind_Ok. apply IH; [lia |]. intros i Hi. apply Hpos. lia.
    + simpl. apply getitem_raises in E. congruence.
Qed.

(** [m_after] keeps [m] when no sign change is seen, and otherwise holds the
    last line at which one is seen. *)
Lemma m_after_none (yint : list row) :
  forall (j k : nat) (m : Z),
    (forall i, (k <= i <= k + j)%nat -> sign_change yint i = false) ->
    m_after yint k j m = m.
Proof.
  induction j as [| j IH]; intros k m H; simpl.
  - rewrite H by lia. reflexivity.
  - rewrite (H k) by lia. apply IH. intros i Hi. apply H. lia.
Qed.

Lemma m_after_last (yint : list row) :
  forall (j k : nat) (m : Z) (i : nat),
    (k <= i <= k + j)%nat ->
    sign_change yint i = true ->
    (forall i', (i < i' <= k + j)%nat -> sign_change yint i' = false) ->
    m_after yint k j m = Z.of_nat i.
Proof.
  induction j as [| j IH]; intros k m i Hi Hc Hlast; simpl.
  - assert (i = k) by lia. subst i. rewrite Hc. reflexivity.
  - destruct (Nat.eq_dec i k) as [-> | Hne].
    + rewrite Hc. apply m_after_none. intros i Hi'. apply Hlast. lia.
    + apply IH; [lia | exact Hc |]. intros i' Hi'. apply Hlast. lia.
Qed.

(** ** Finite polynomials *)

Lemma evalR_acc (p : list float) (x a : R) :
  fold_left (fun y c => y * x + to_R c) p a = a * x ^ length p + evalR p x.
Proof.
  unfold evalR. revert a. induction p as [| c p IH]; intros a; simpl.
  - ring.
  - rewrite (IH (a * x + to_R c)), (IH (0 * x + to_R c)). ring.
Qed.

Lemma evalR_nil (x : R) : evalR [] x = 0.
Proof. reflexivity. Qed.

Lemma evalR_cons (c : float) (p : list float) (x : R) :
  evalR (c :: p) x = to_R c * x ^ length p + evalR p x.
Proof.
  unfold evalR at 1. simpl. rewrite evalR_acc. ring.
Qed.

Lemma polyval_acc (p : list float) (x a : R) :
  all_finite p ->
  fold_left (fun y c => y [*] Fin x [+] c) p (Fin a) =
  Fin (fold_left (fun y c => y * x + to_R c) p a).
Proof.
  intros H. revert a. induction H as [| c p Hc _ IH]; intros a; simpl.
  - reflexivity.
  - rewrite (is_finite_Fin c Hc). simpl. apply IH.
Qed.

Lemma polyval_fin (p : list float) (x : R) :
  all_finite p -> polyval p (Fin x) = Fin (evalR p x).
Proof. intros H. apply polyval_acc. exact H. Qed.

Lemma trim_zeros_props (c : list float) :
  all_finite c ->
  all_finite (trim_zeros c) /\ (length (trim_zeros c) <= length c)%nat /\
  forall x, evalR (trim_zeros c) x = evalR c x.
Proof.
  induction 1 as [| a c Ha Hc IH]; simpl.
  - repeat split; [constructor | lia].
  - destruct a as [r | | |]; try discriminate.
    destruct (Req_dec_T r 0) as [-> | Hr].
    + destruct IH as (IH1 & IH2 & IH3). repeat split; [exact IH1 | lia |].
      intros x. rewrite IH3, evalR_cons. simpl. ring.
    + repeat split; [constructor; assumption | simpl; lia].
Qed.

Lemma poly1d_props (c : list float) :
  all_finite c ->
  all_finite (poly1d c) /\ (1 <= length (poly1d c) <= Nat.max 1 (length c))%nat /\
  forall x, evalR (poly1d c) x = evalR c x.
Proof.
  intros H. destruct (trim_zeros_props c H) as (H1 & H2 & H3).
  unfold poly1d. destruct (trim_zeros c) as [| a c'] eqn:E.
  - repeat split.
    + repeat constructor.
    + cbn [length]. lia.
    + cbn [length]. lia.
    + intros x. rewrite <- H3. unfold evalR. simpl. ring.
  - repeat split; [exact H1 | cbn [length]; lia | cbn [length] in *; lia | exact H3].
Qed.

Lemma addh_props (u v : list float) :
  all_finite u -> all_finite v ->
  all_finite (addh u v) /\ length (addh u v) = Nat.max (length u) (length v) /\
  forall x, evalR (addh u v) x =
            evalR u x * x ^ (length v - length u) + evalR v x * x ^ (length u - length v).
Proof.
  intros Hu. revert v. induction Hu as [| a u Ha Hu IH]; intros v Hv.
  - simpl. repeat split; [exact Hv |]. intros x. rewrite evalR_nil. simpl. ring.
  - destruct Hv as [| b v Hb Hv].
    + simpl. repeat split; [constructor; assumption |].
      intros x. rewrite evalR_nil. simpl. ring.
    + destruct (IH v Hv) as (I1 & I2 & I3). simpl addh. repeat split.
      * constructor; [| exact I1].
        rewrite (is_finite_Fin a Ha), (is_finite_Fin b Hb). reflexivity.
      * simpl. lia.
      * intros x. rewrite !evalR_cons, I3, I2.
        rewrite (is_finite_Fin a Ha), (is_finite_Fin b Hb). simpl length. simpl to_R.
        replace (S (length v) - S (length u))%nat with (length v - length u)%nat by lia.
        replace (S (length u) - S (length v))%nat with (length u - length v)%nat by lia.
        destruct (Nat.le_ge_cases (length u) (length v)) as [Hle | Hle].
        -- replace (Nat.max (length u) (length v)) with (length v) by lia.
           replace (length u - length v)%nat with 0%nat by lia.
           remember (length v - length u)%nat as d eqn:Ed.
           replace (length v) with (length u + d)%nat by lia.
           rewrite pow_add. simpl. ring.
        -- replace (Nat.max (length u) (length v)) with (length u) by lia.
           replace (length v - length u)%nat with 0%nat by lia.
           remember (length u - length v)%nat as d eqn:Ed.
           replace (length u) with (length v + d)%nat by lia.
           rewrite pow_add. simpl. ring.
Qed.

Lemma scale_props (a : R) (b : list float) :
  all_finite b ->
  all_finite (map (fmul (Fin a)) b) /\
  forall x, evalR (map (fmul (Fin a)) b) x = a * evalR b x.
Proof.
  induction 1 as [| c b Hc Hb IH]; simpl.
  - split; [constructor |]. intros x. rewrite evalR_nil. ring.
  - destruct IH as [I1 I2]. rewrite (is_finite_Fin c Hc). simpl. split.
    + constructor; [reflexivity | exact I1].
    + intros x. rewrite !evalR_cons, I2, length_map. simpl. ring.
Qed.

Lemma convolve_props (b : list float) :
  all_finite b -> b <> [] ->
  forall a, all_finite a ->
    all_finite (convolve a b) /\
    length (convolve a b) =
      match a with [] => 0%nat | _ => (length a + length b - 1)%nat end /\
    forall x, evalR (convolve a b) x = evalR a x * evalR b x.
Proof.
  intros Hb Hne a Ha. induction Ha as [| a0 a' Ha0 Ha' IH].
  - simpl. repeat split; [constructor |]. intros x. rewrite evalR_nil. ring.
  - destruct IH as (I1 & I2 & I3).
    rewrite (is_finite_Fin a0 Ha0). simpl convolve.
    destruct (scale_props (to_R a0) b Hb) as [S1 S2].
    assert (SL : length (map (fmul (Fin (to_R a0))) b) = length b) by apply length_map.
    destruct (map (fmul (Fin (to_R a0))) b) as [| h tl] eqn:E.
    { destruct b; [congruence | discriminate]. }
    inversion S1 as [| ? ? Hh Htl]; subst.
    destruct (addh_props tl (convolve a' b) Htl I1) as (A1 & A2 & A3).
    simpl in SL. repeat split.
    + constructor; assumption.
    + simpl length. rewrite A2, I2. destruct a'; simpl length; lia.
    + intros x. specialize (S2 x). rewrite evalR_cons in S2.
      rewrite !evalR_cons, A3, A2, I3, I2. simpl to_R.
      destruct a' as [| a1 a''].
      * simpl length. rewrite evalR_nil.
        replace (Nat.max (length tl) 0) with (length tl) by lia.
        replace (0 - length tl)%nat with 0%nat by lia.
        rewrite Nat.sub_0_r. simpl pow. lra.
      * set (la := length (a1 :: a'')) in *.
        assert (Hla : (1 <= la)%nat) by (subst la; simpl; lia).
        replace (Nat.max (length tl) (la + length b - 1)) with (length tl + la)%nat by lia.
        replace (la + length b - 1 - length tl)%nat with la by lia.
        replace (length tl - (la + length b - 1))%nat with 0%nat by lia.
        rewrite pow_add. simpl pow. nra.
Qed.

Lemma pad_props (k : nat) (c : list float) :
  all_finite c ->
  all_finite (pad k c) /\ length (pad k c) = (k + length c)%nat /\
  forall x, evalR (pad k c) x = evalR c x.
Proof.
  intros H. induction k as [| k (I1 & I2 & I3)].
  - repeat split. exact H.
  - change (pad (S k) c) with (Fin 0 :: pad k c). repeat split.
    + constructor; [reflexivity | exact I1].
    + simpl. rewrite I2. reflexivity.
    + intros x. rewrite evalR_cons, I3. simpl. ring.
Qed.

Lemma zipadd_props (u : list float) :
  all_finite u -> forall v, all_finite v -> length u = length v ->
    all_finite (map (fun ab => fst ab [+] snd ab) (combine u v)) /\
    length (map (fun ab => fst ab [+] snd ab) (combine u v)) = length u /\
    forall x, evalR (map (fun ab => fst ab [+] snd ab) (combine u v)) x =
              evalR u x + evalR v x.
Proof.
  induction 1 as [| a u Ha Hu IH]; intros v Hv HL.
  - simpl. repeat split; [constructor |]. intros x.
    destruct v; [| discriminate]. rewrite evalR_nil. ring.
  - destruct Hv as [| b v Hb Hv]; [discriminate |].
    injection HL as HL. destruct (IH v Hv HL) as (I1 & I2 & I3).
    simpl. rewrite (is_finite_Fin a Ha), (is_finite_Fin b Hb). simpl. repeat split.
    + constructor; [reflexivity | exact I1].
    + rewrite I2. reflexivity.
    + intros x. rewrite !evalR_cons, I3, I2, HL. simpl. ring.
Qed.

Lemma polyadd_props (a b : list float) :
  all_finite a -> all_finite b ->
  all_finite (polyadd a b) /\ length (polyadd a b) = Nat.max (length a) (length b) /\
  forall x, evalR (polyadd a b) x = evalR a x + evalR b x.
Proof.
  intros Ha Hb. unfold polyadd.
  destruct (pad_props (length b - length a) a Ha) as (A1 & A2 & A3).
  destruct (pad_props (length a - length b) b Hb) as (B1 & B2 & B3).
  destruct (zipadd_props _ A1 _ B1) as (Z1 & Z2 & Z3); [lia |].
  repeat split; [exact Z1 | lia |].
  intros x. rewrite Z3, A3, B3. reflexivity.
Qed.

Lemma divs_props (s : R) (p : list float) :
  s <> 0 -> all_finite p ->
  all_finite (map (fun c => c [/] Fin s) p) /\
  forall x, evalR (map (fun c => c [/] Fin s) p) x = evalR p x / s.
Proof.
  intros Hs. induction 1 as [| c p Hc Hp (I1 & I2)]; simpl.
  - split; [constructor |]. intros x. rewrite evalR_nil. field. exact Hs.
  - rewrite (is_finite_Fin c Hc), fdiv_fin by exact Hs. split.
    + constructor; [reflexivity | exact I1].
    + intros x. rewrite !evalR_cons, I2, length_map. simpl. field. exact Hs.
Qed.

(** *** Polynomials as functions *)

Lemma represents_weaken (p : poly) (d d' : nat) (f : R -> R) :
  represents p d f -> (d <= d')%nat -> represents p d' f.
Proof. intros (H1 & H2 & H3) Hd. repeat split; [exact H1 | lia | exact H3]. Qed.

Lemma represents_ext (p : poly) (d : nat) (f g : R -> R) :
  represents p d f -> (forall x, f x = g x) -> represents p d g.
Proof.
  intros (H1 & H2 & H3) Hfg. repeat split; [exact H1 | exact H2 |].
  intros x. rewrite H3. apply Hfg.
Qed.

Lemma represents_const (w : R) : represents (poly1d [Fin w]) 1 (fun _ => w).
Proof.
  destruct (poly1d_props [Fin w]) as (H1 & H2 & H3); [repeat constructor |].
  repeat split; [exact H1 | simpl in H2; lia |].
  intros x. rewrite H3. unfold evalR. simpl. ring.
Qed.

Lemma represents_linear (c : R) :
  represents (poly1d [Fin 1; Fin c]) 2 (fun x => x + c).
Proof.
  destruct (poly1d_props [Fin 1; Fin c]) as (H1 & H2 & H3); [repeat constructor |].
  repeat split; [exact H1 | simpl in H2; lia |].
  intros x. rewrite H3. unfold evalR. simpl. ring.
Qed.

Lemma represents_div (p : poly) (d : nat) (f : R -> R) (s : R) :
  s <> 0 -> (1 <= d)%nat -> represents p d f ->
  represents (poly_div p (Fin s)) d (fun x => f x / s).
Proof.
  intros Hs Hd (H1 & H2 & H3). unfold poly_div.
  destruct (divs_props s p Hs H1) as [D1 D2].
  destruct (poly1d_props _ D1) as (P1 & P2 & P3).
  rewrite length_map in P2.
  repeat split; [exact P1 | lia |].
  intros x. rewrite P3, D2, H3. reflexivity.
Qed.

Lemma represents_mul (p q : poly) (d e : nat) (f g : R -> R) :
  (1 <= length p)%nat -> (1 <= length q)%nat ->
  represents p d f -> represents q e g ->
  represents (poly_mul p q) (d + e - 1) (fun x => f x * g x).
Proof.
  intros Lp Lq (H1 & H2 & H3) (G1 & G2 & G3). unfold poly_mul.
  assert (Hq : q <> []) by (destruct q; [simpl in Lq; lia | discriminate]).
  destruct (convolve_props q G1 Hq p H1) as (C1 & C2 & C3).
  destruct (poly1d_props _ C1) as (P1 & P2 & P3).
  repeat split; [exact P1 | |].
  - rewrite C2 in P2. destruct p; [simpl in Lp; lia |]. lia.
  - intros x. rewrite P3, C3, H3, G3. reflexivity.
Qed.

Lemma represents_add (p q : poly) (d : nat) (f g : R -> R) :
  (1 <= d)%nat -> represents p d f -> represents q d g ->
  represents (poly_add p q) d (fun x => f x + g x).
Proof.
  intros Hd (H1 & H2 & H3) (G1 & G2 & G3). unfold poly_add.
  destruct (polyadd_props p q H1 G1) as (A1 & A2 & A3).
  destruct (poly1d_props _ A1) as (P1 & P2 & P3).
  repeat split; [exact P1 | lia |].
  intros x. rewrite P3, A3, H3, G3. reflexivity.
Qed.

Lemma poly_length_pos_mul (p q : poly) : (1 <= length (poly_mul p q))%nat.
Proof. unfold poly_mul, poly1d. destruct (trim_zeros _); simpl; lia. Qed.

Lemma poly_length_pos_div (p : poly) (s : float) : (1 <= length (poly_div p s))%nat.
Proof. unfold poly_div, poly1d. destruct (trim_zeros _); simpl; lia. Qed.

Lemma poly_length_pos_1d (c : list float) : (1 <= length (poly1d c))%nat.
Proof. unfold poly1d. destruct (trim_zeros _); simpl; lia. Qed.

(** ** Three-point Lagrange fits *)

Lemma lagrange_unfold3 (x0 x1 x2 w0 w1 w2 : float) :
  lagrange [x0; x1; x2] [w0; w1; w2] =
  poly_add
    (poly_add
       (poly_add (poly1d [Fin 0])
          (poly_mul
             (poly_mul (poly1d [w0]) (poly_div (poly1d [Fin 1; fneg x1]) (x0 [-] x1)))
             (poly_div (poly1d [Fin 1; fneg x2]) (x0 [-] x2))))
       (poly_mul
          (poly_mul (poly1d [w1]) (poly_div (poly1d [Fin 1; fneg x0]) (x1 [-] x0)))
          (poly_div (poly1d [Fin 1; fneg x2]) (x1 [-] x2))))
    (poly_mul
       (poly_mul (poly1d [w2]) (poly_div (poly1d [Fin 1; fneg x0]) (x2 [-] x0)))
       (poly_div (poly1d [Fin 1; fneg x1]) (x2 [-] x1))).
Proof. reflexivity. Qed.

Lemma represents_factor (xj xk : R) :
  xj <> xk ->
  represents (poly_div (poly1d [Fin 1; fneg (Fin xk)]) (Fin xj [-] Fin xk)) 2
    (fun x => (x - xk) / (xj - xk)).
Proof.
  intros H. simpl fneg. unfold fsub. simpl fneg. simpl fadd.
  eapply represents_ext.
  - apply represents_div; [lra | lia | apply represents_linear].
  - intros x. simpl. field. lra.
Qed.

Lemma represents_term (w xj xk xl : R) :
  xj <> xk -> xj <> xl ->
  represents
    (poly_mul
       (poly_mul (poly1d [Fin w]) (poly_div (poly1d [Fin 1; fneg (Fin xk)]) (Fin xj [-] Fin xk)))
       (poly_div (poly1d [Fin 1; fneg (Fin xl)]) (Fin xj [-] Fin xl))) 3
    (fun x => w * ((x - xk) / (xj - xk)) * ((x - xl) / (xj - xl))).
Proof.
  intros Hk Hl.
  apply (represents_mul _ _ 2 2).
  - apply poly_length_pos_mul.
  - apply poly_length_pos_div.
  - apply (represents_mul _ _ 1 2).
    + apply poly_length_pos_1d.
    + apply poly_length_pos_div.
    + apply represents_const.
    + apply represents_factor. exact Hk.
  - apply represents_factor. exact Hl.
Qed.

Lemma lagrange3_represents (x0 x1 x2 w0 w1 w2 : R) :
  x0 <> x1 -> x0 <> x2 -> x1 <> x2 ->
  represents (lagrange [Fin x0; Fin x1; Fin x2] [Fin w0; Fin w1; Fin w2]) 3
    (lagrange3 x0 x1 x2 w0 w1 w2).
Proof.
  intros H01 H02 H12. rewrite lagrange_unfold3.
  eapply represents_ext.
  - apply represents_add; [lia | |].
    + apply represents_add; [lia | |].
      * apply represents_add; [lia | |].
        -- apply (represents_weaken _ 1); [apply (represents_const 0) | lia].
        -- apply represents_term; assumption.
      * apply represents_term; [apply not_eq_sym |]; assumption.
    + apply represents_term; apply not_eq_sym; assumption.
  - intros x. unfold lagrange3. simpl. ring.
Qed.

Lemma lagrange3_fits (x0 x1 x2 w0 w1 w2 : R) :
  x0 <> x1 -> x0 <> x2 -> x1 <> x2 ->
  lagrange3 x0 x1 x2 w0 w1 w2 x0 = w0 /\
  lagrange3 x0 x1 x2 w0 w1 w2 x1 = w1 /\
  lagrange3 x0 x1 x2 w0 w1 w2 x2 = w2.
Proof.
  intros H01 H02 H12. unfold lagrange3.
  repeat split; field; repeat split; lra.
Qed.

(** A finite polynomial of at most three coefficients is a quadratic. *)
Lemma represents_coefs (p : poly) (f : R -> R) :
  represents p 3 f ->
  exists a b c : R, forall x, f x = quadR a b c x.
Proof.
  intros (H1 & H2 & H3).
  destruct p as [| c0 [| c1 [| c2 [| c3 p]]]]; simpl in H2; try lia.
  - exists 0, 0, 0. intros x. rewrite <- H3. unfold quadR, evalR. simpl. ring.
  - exists 0, 0, (to_R c0).
    intros x. rewrite <- H3. unfold quadR, evalR. simpl. ring.
  - exists 0, (to_R c0), (to_R c1).
    intros x. rewrite <- H3. unfold quadR, evalR. simpl. ring.
  - exists (to_R c0), (to_R c1), (to_R c2).
    intros x. rewrite <- H3. unfold quadR, evalR. simpl. ring.
Qed.

(** A quadratic function determines its coefficients. *)
Lemma quadR_coefs (a b c a' b' c' : R) :
  (forall x, quadR a b c x = quadR a' b' c' x) -> a = a' /\ b = b' /\ c = c'.
Proof.
  intros H. pose proof (H 0) as H0. pose proof (H 1) as H1.
  pose proof (H (-1)) as H2. unfold quadR in H0, H1, H2.
  repeat split; lra.
Qed.

(** What [poly1d] returns has no leading zero, unless it is the zero
    polynomial. *)
Lemma poly1d_trimmed (c : list float) :
  poly1d c = [Fin 0] \/ exists h tl, poly1d c = h :: tl /\ h <> Fin 0.
Proof.
  unfold poly1d. induction c as [| a c IH]; [left; reflexivity |].
  destruct a as [r | | |]; cbn [trim_zeros];
    try (right; eexists; eexists; split; [reflexivity | discriminate]).
  destruct (Req_dec_T r 0) as [E | E]; [exact IH |].
  right. exists (Fin r), c. split; [reflexivity |]. intros H. apply E. congruence.
Qed.

Lemma lagrange3_trimmed (x0 x1 x2 w0 w1 w2 : float) :
  lagrange [x0; x1; x2] [w0; w1; w2] = [Fin 0] \/
  exists h tl, lagrange [x0; x1; x2] [w0; w1; w2] = h :: tl /\ h <> Fin 0.
Proof. rewrite lagrange_unfold3. unfold poly_add at 1. apply poly1d_trimmed. Qed.

(** What [p[2]] and [p[1]] are for a trimmed finite polynomial that is the
    quadratic [a*x^2 + b*x + c]: numpy floats up to the order, the Python
    integer [0] above it. *)
Lemma represents_order (p : poly) (f : R -> R) (a b c : R) :
  represents p 3 f ->
  (p = [Fin 0] \/ exists h tl, p = h :: tl /\ h <> Fin 0) ->
  (forall x, f x = quadR a b c x) ->
  (a <> 0 -> coef p 2 = Np (Fin a) /\ coef p 1 = Np (Fin b)) /\
  (a <> 0 \/ b <> 0 -> exists b', coef p 1 = Np b') /\
  (a = 0 -> b = 0 -> coef p 1 = Py 0 /\ coef p 2 = Py 0).
Proof.
  intros (H1 & H2 & H3) Htrim Hf.
  assert (Hq : forall x, evalR p x = quadR a b c x)
    by (intros x; rewrite H3; apply Hf).
  destruct p as [| c0 [| c1 [| c2 [| c3 p]]]]; simpl in H2; try lia.
  - destruct Htrim as [E | (h & tl & E & _)]; discriminate.
  - inversion H1 as [| ? ? F0 _]; subst.
    rewrite (is_finite_Fin c0 F0) in *.
    destruct (quadR_coefs 0 0 (to_R (Fin (to_R c0))) a b c) as (Ea & Eb & _).
    { intros x. rewrite <- Hq. unfold quadR, evalR. simpl. ring. }
    split; [intros Ha; congruence |]. split; [intros [Ha | Hb]; congruence |].
    intros _ _. split; reflexivity.
  - inversion H1 as [| ? ? F0 H1']; subst. inversion H1' as [| ? ? F1 _]; subst.
    rewrite (is_finite_Fin c0 F0), (is_finite_Fin c1 F1) in *.
    destruct (quadR_coefs 0 (to_R c0) (to_R c1) a b c) as (Ea & Eb & _).
    { intros x. rewrite <- Hq. unfold quadR, evalR. simpl. ring. }
    split; [intros Ha; congruence |].
    split; [intros _; eexists; reflexivity |].
    intros _ Hb. exfalso.
    destruct Htrim as [E | (h & tl & E & Hh)]; [discriminate |].
    apply Hh. inversion E. f_equal. lra.
  - inversion H1 as [| ? ? F0 H1']; subst. inversion H1' as [| ? ? F1 H1'']; subst.
    inversion H1'' as [| ? ? F2 _]; subst.
    rewrite (is_finite_Fin c0 F0), (is_finite_Fin c1 F1), (is_finite_Fin c2 F2) in *.
    destruct (quadR_coefs (to_R c0) (to_R c1) (to_R c2) a b c) as (Ea & Eb & _).
    { intros x. rewrite <- Hq. unfold quadR, evalR. simpl. ring. }
    split; [intros _; unfold coef, order; cbn; split; congruence |].
    split; [intros _; eexists; reflexivity |].
    intros Ha _. exfalso.
    destruct Htrim as [E | (h & tl & E & Hh)]; [discriminate |].
    apply Hh. inversion E. f_equal. lra.
Qed.

(** [polyval] at a value that is not finite is NaN. *)
Lemma polyval_nan_acc (p : list float) (x : float) :
  fold_left (fun y c => y [*] x [+] c) p NaN = NaN.
Proof. induction p as [| c p IH]; simpl; [reflexivity | exact IH]. Qed.

Lemma polyval_nonfinite (p : list float) (x : float) :
  is_finite x = false -> p <> [] -> polyval p x = NaN.
Proof.
  intros Hx Hp. destruct p as [| c p]; [contradiction |].
  assert (E : Fin 0 [*] x = NaN)
    by (destruct x; try discriminate; simpl; rewrite ?Rsgn_zero; reflexivity).
  unfold polyval. cbn [fold_left]. rewrite E.
  change (NaN [+] c) with NaN. apply polyval_nan_acc.
Qed.

(** [polyval] of a finite polynomial agrees, on every float, with [quad]
    of its three coefficients. *)
Lemma polyval_quad (p : poly) (a b c : R) (f : R -> R) (x : float) :
  represents p 3 f -> p <> [] -> (forall z, f z = quadR a b c z) ->
  polyval p x = quad a b c x.
Proof.
  intros (H1 & H2 & H3) Hp Hf. destruct (is_finite x) eqn:Ex.
  - rewrite (is_finite_Fin x Ex). unfold quad.
    rewrite !polyval_fin by (try exact H1; repeat constructor).
    f_equal. rewrite H3, Hf. unfold quadR, evalR. simpl. ring.
  - unfold quad. rewrite !polyval_nonfinite; try assumption; congruence.
Qed.

(** A fit through three points of pairwise distinct abscissas is the
    interpolating quadratic [a*x^2 + b*x + c]: evaluating it is evaluating
    that quadratic, its coefficients [p[2]] and [p[1]] are [a] and [b] when
    [a] is not zero, and both are the Python integer [0] when the three
    ordinates are equal. *)
Lemma lagrange3_fit (x0 x1 x2 w0 w1 w2 : R) :
  x0 <> x1 -> x0 <> x2 -> x1 <> x2 ->
  exists a b c : R,
    fits a b c x0 x1 x2 w0 w1 w2 /\
    (a <> 0 ->
     coef (lagrange [Fin x0; Fin x1; Fin x2] [Fin w0; Fin w1; Fin w2]) 2 = Np (Fin a) /\
     coef (lagrange [Fin x0; Fin x1; Fin x2] [Fin w0; Fin w1; Fin w2]) 1 = Np (Fin b)) /\
    (a <> 0 \/ b <> 0 ->
     exists b', coef (lagrange [Fin x0; Fin x1; Fin x2] [Fin w0; Fin w1; Fin w2]) 1 = Np b') /\
    (a = 0 -> b = 0 ->
     coef (lagrange [Fin x0; Fin x1; Fin x2] [Fin w0; Fin w1; Fin w2]) 1 = Py 0 /\
     coef (lagrange [Fin x0; Fin x1; Fin x2] [Fin w0; Fin w1; Fin w2]) 2 = Py 0) /\
    forall x : float,
      polyval (lagrange [Fin x0; Fin x1; Fin x2] [Fin w0; Fin w1; Fin w2]) x = quad a b c x.
Proof.
  intros H01 H02 H12.
  pose proof (lagrange3_represents x0 x1 x2 w0 w1 w2 H01 H02 H12) as Hrep.
  destruct (represents_coefs _ _ Hrep) as (a & b & c & Hq).
  destruct (lagrange3_fits x0 x1 x2 w0 w1 w2 H01 H02 H12) as (F0 & F1 & F2).
  destruct (represents_order _ _ a b c Hrep (lagrange3_trimmed _ _ _ _ _ _) Hq)
    as (C2 & C1 & C0).
  exists a, b, c.
  split; [repeat split; rewrite <- Hq; assumption |].
  split; [exact C2 |]. split; [exact C1 |]. split; [exact C0 |].
  intros x. apply (polyval_quad _ _ _ _ _ _ Hrep); [| exact Hq].
  rewrite lagrange_unfold3. unfold poly_add, poly1d.
  destruct (trim_zeros _); discriminate.
Qed.

Lemma quad_fin (a b c x : R) : quad a b c (Fin x) = Fin (quadR a b c x).
Proof. unfold quad, polyval, quadR. simpl. f_equal. ring. Qed.

(** The three-line bracket around [m] as [highest] reads it. *)
Lemma highest_bracket (t : list float) (yint : list row) (m : Z)
    (r0 r1 r2 : row) (t0 t1 t2 : float) :
  getitem yint (m - 1) = Ok r0 -> getitem yint m = Ok r1 ->
  getitem yint (m + 1) = Ok r2 ->
  getitem t (m - 1) = Ok t0 -> getitem t m = Ok t1 -> getitem t (m + 1) = Ok t2 ->
  highest t yint m =
  let lhx := [col2 r0; col2 r1; col2 r2] in
  let phyx := lagrange lhx [col3 r0; col3 r1; col3 r2] in
  q <- py_div (py_neg (coef phyx 1)) (py_mul (Py 2) (coef phyx 2)) ;;
  let hx := as_float q in
  Ok (Line (polyval (lagrange lhx [t0; t1; t2]) hx)
           (polyval (lagrange lhx [col0 r0; col0 r1; col0 r2]) hx)
           (Fin 0) (polyval phyx hx) hx).
Proof.
  intros Y0 Y1 Y2 T0 T1 T2. unfold highest, cells3, times3, getcell.
  rewrite Y0, Y1, Y2, T0, T1, T2. reflexivity.
Qed.

Lemma impact_bracket (t : list float) (yint : list row) (n : Z)
    (r0 r1 r2 : row) (t0 t1 t2 : float) :
  getitem yint (n - 2) = Ok r0 -> getitem yint (n - 1) = Ok r1 ->
  getitem yint n = Ok r2 ->
  getitem t (n - 2) = Ok t0 -> getitem t (n - 1) = Ok t1 -> getitem t n = Ok t2 ->
  impact t yint n =
  let lgy := [col3 r0; col3 r1; col3 r2] in
  let ivx := polyval (lagrange lgy [col0 r0; col0 r1; col0 r2]) (Fin 0) in
  let ivy := polyval (lagrange lgy [col1 r0; col1 r1; col1 r2]) (Fin 0) in
  Ok (Line (polyval (lagrange lgy [t0; t1; t2]) (Fin 0))
           (fsqrt (fsqr ivx [+] fsqr ivy))
           (impact_angle ivx ivy)
           (Fin 0)
           (polyval (lagrange lgy [col2 r0; col2 r1; col2 r2]) (Fin 0))).
Proof.
  intros Y0 Y1 Y2 T0 T1 T2. unfold impact, cells3, times3, getcell.
  rewrite Y0, Y1, Y2, T0, T1, T2. reflexivity.
Qed.

(** The division of the script's line 74 raises on two plain numbers
    only, and then a [ZeroDivisionError]. *)
Lemma py_div_raises (a b : pynum) (e : exn) :
  py_div a b = Raise e -> e = ZeroDivisionError.
Proof.
  destruct a, b; cbn [py_div]; try discriminate.
  destruct (Req_dec_T _ 0); [congruence | discriminate].
Qed.

Lemma py_div_np (b : float) (d : pynum) :
  py_div (py_neg (Np b)) d = Ok (Np (fneg b [/] as_float d)).
Proof. destruct d; reflexivity. Qed.

(** The apex refinement on a finite bracket of pairwise distinct
    abscissas, by the quadratic [a*x^2 + b*x + c] through the altitudes:
    the stationary point when [a] is not zero, a [ZeroDivisionError] when
    the three altitudes are equal, and some record in between. *)
Lemma highest_fit (t : list float) (yint : list row) (m : Z)
    (v0 u0 x0 y0 v1 u1 x1 y1 v2 u2 x2 y2 t0 t1 t2 : R) :
  getitem yint (m - 1) = Ok (Row (Fin v0) (Fin u0) (Fin x0) (Fin y0)) ->
  getitem yint m = Ok (Row (Fin v1) (Fin u1) (Fin x1) (Fin y1)) ->
  getitem yint (m + 1) = Ok (Row (Fin v2) (Fin u2) (Fin x2) (Fin y2)) ->
  getitem t (m - 1) = Ok (Fin t0) -> getitem t m = Ok (Fin t1) ->
  getitem t (m + 1) = Ok (Fin t2) ->
  x0 <> x1 -> x0 <> x2 -> x1 <> x2 ->
  exists a b c at' bt ct av bv cv : R,
    fits a b c x0 x1 x2 y0 y1 y2 /\
    fits at' bt ct x0 x1 x2 t0 t1 t2 /\
    fits av bv cv x0 x1 x2 v0 v1 v2 /\
    (a <> 0 ->
     highest t yint m =
       (let hx := - b / (2 * a) in
        Ok (Line (Fin (quadR at' bt ct hx)) (Fin (quadR av bv cv hx)) (Fin 0)
              (Fin (quadR a b c hx)) (Fin hx)))) /\
    (a <> 0 \/ b <> 0 -> exists h, highest t yint m = Ok h) /\
    (a = 0 -> b = 0 -> highest t yint m = Raise ZeroDivisionError).
Proof.
  intros Y0 Y1 Y2 T0 T1 T2 H01 H02 H12.
  destruct (lagrange3_fit x0 x1 x2 y0 y1 y2 H01 H02 H12)
    as (a & b & c & Fy & C2 & C1 & C0 & Vy).
  destruct (lagrange3_fit x0 x1 x2 t0 t1 t2 H01 H02 H12)
    as (at' & bt & ct & Ft & _ & _ & _ & Vt).
  destruct (lagrange3_fit x0 x1 x2 v0 v1 v2 H01 H02 H12)
    as (av & bv & cv & Fv & _ & _ & _ & Vv).
  exists a, b, c, at', bt, ct, av, bv, cv.
  split; [exact Fy |]. split; [exact Ft |]. split; [exact Fv |].
  rewrite (highest_bracket _ _ _ _ _ _ _ _ _ Y0 Y1 Y2 T0 T1 T2).
  cbv zeta. cbn [col0 col1 col2 col3].
  split; [| split].
  - intros Ha. destruct (C2 Ha) as [E2 E1]. rewrite E2, E1.
    cbn [py_neg py_mul py_div as_float]. rewrite bind_Ok.
    cbn [as_float]. rewrite Vy, Vt, Vv.
    cbn [fneg fmul]. rewrite fdiv_fin by lra. rewrite !quad_fin. reflexivity.
  - intros Hab. destruct (C1 Hab) as [b' E1]. rewrite E1, py_div_np, bind_Ok.
    eexists. reflexivity.
  - intros Ha Hb. destruct (C0 Ha Hb) as [E1 E2]. rewrite E1, E2.
    cbn [py_neg py_mul py_div].
    destruct (Req_dec_T (2 * 0) 0) as [_ | N]; [reflexivity | exfalso; lra].
Qed.

Lemma speed_fin (a b : R) :
  fsqrt (fsqr (Fin a) [+] fsqr (Fin b)) = Fin (sqrt (a ^ 2 + b ^ 2)).
Proof.
  simpl fsqr. simpl fadd. rewrite fsqrt_fin by nra.
  f_equal. f_equal. ring.
Qed.

Lemma impact_fit (t : list float) (yint : list row) (n : Z)
    (v0 u0 x0 y0 v1 u1 x1 y1 v2 u2 x2 y2 t0 t1 t2 : R) :
  getitem yint (n - 2) = Ok (Row (Fin v0) (Fin u0) (Fin x0) (Fin y0)) ->
  getitem yint (n - 1) = Ok (Row (Fin v1) (Fin u1) (Fin x1) (Fin y1)) ->
  getitem yint n = Ok (Row (Fin v2) (Fin u2) (Fin x2) (Fin y2)) ->
  getitem t (n - 2) = Ok (Fin t0) -> getitem t (n - 1) = Ok (Fin t1) ->
  getitem t n = Ok (Fin t2) ->
  y0 <> y1 -> y0 <> y2 -> y1 <> y2 ->
  exists ax bx cx at' bt ct av bv cv au bu cu : R,
    fits ax bx cx y0 y1 y2 x0 x1 x2 /\
    fits at' bt ct y0 y1 y2 t0 t1 t2 /\
    fits av bv cv y0 y1 y2 v0 v1 v2 /\
    fits au bu cu y0 y1 y2 u0 u1 u2 /\
    impact t yint n =
      (let xid := quadR ax bx cx 0 in
       let xit := quadR at' bt ct 0 in
       let ivx := quadR av bv cv 0 in
       let ivy := quadR au bu cu 0 in
       Ok (Line (Fin xit) (Fin (sqrt (ivx ^ 2 + ivy ^ 2)))
             (impact_angle (Fin ivx) (Fin ivy)) (Fin 0) (Fin xid))).
Proof.
  intros Y0 Y1 Y2 T0 T1 T2 H01 H02 H12.
  destruct (lagrange3_fit y0 y1 y2 x0 x1 x2 H01 H02 H12)
    as (ax & bx & cx & Fx & _ & _ & _ & Vx).
  destruct (lagrange3_fit y0 y1 y2 t0 t1 t2 H01 H02 H12)
    as (at' & bt & ct & Ft & _ & _ & _ & Vt).
  destruct (lagrange3_fit y0 y1 y2 v0 v1 v2 H01 H02 H12)
    as (av & bv & cv & Fv & _ & _ & _ & Vv).
  destruct (lagrange3_fit y0 y1 y2 u0 u1 u2 H01 H02 H12)
    as (au & bu & cu & Fu & _ & _ & _ & Vu).
  exists ax, bx, cx, at', bt, ct, av, bv, cv, au, bu, cu.
  split; [exact Fx |]. split; [exact Ft |]. split; [exact Fv |]. split; [exact Fu |].
  rewrite (impact_bracket _ _ _ _ _ _ _ _ _ Y0 Y1 Y2 T0 T1 T2).
  cbv zeta. cbn [col0 col1 col2 col3]. rewrite Vx, Vt, Vv, Vu, !quad_fin, speed_fin.
  reflexivity.
Qed.

(** ** The equation of motion *)

Lemma speed_pos (vx vy : R) : (vx, vy) <> (0, 0) -> 0 < sqrt (vx ^ 2 + vy ^ 2).
Proof.
  intros H. apply sqrt_lt_R0.
  destruct (Req_dec_T vx 0) as [-> | Hx]; [| nra].
  destruct (Req_dec_T vy 0) as [-> | Hy]; [contradiction H; reflexivity | nra].
Qed.

Lemma dc_fin (tv : R) : tv <> 0 -> dc (Fin tv) = Fin (980665 / 100000 / tv ^ 2).
Proof.
  intros H. unfold dc, gc. simpl fsqr. rewrite fdiv_fin by nra.
  f_equal. f_equal. ring.
Qed.

(** C1.  On a finite state with a nonzero velocity, and for a nonzero
    terminal velocity, [derv] returns the derivative [(ax, ay, vx, vy)] of
    the design: [(ax, ay) = (0, -g) + d] with [d = -dc * speed^2 * u],
    [speed = sqrt (vx^2 + vy^2)], [u = (vx, vy) / speed] and
    [dc = g / tv^2].  The value does not depend on the time argument, and
    the drag is [-dc * speed] times the velocity. *)
Theorem derv_EquationOfMotion (tv vx vy x y : R) (t : float) :
  tv <> 0 -> (vx, vy) <> (0, 0) ->
  derv (Fin tv) (Row (Fin vx) (Fin vy) (Fin x) (Fin y)) t =
    (let '(ax, ay, vx', vy') := EquationOfMotion (980665 / 100000) tv vx vy in
     Row (Fin ax) (Fin ay) (Fin vx') (Fin vy')) /\
  (let '(ax, ay, _, _) := EquationOfMotion (980665 / 100000) tv vx vy in
   let k := 980665 / 100000 / tv ^ 2 * sqrt (vx ^ 2 + vy ^ 2) in
   ax = - k * vx /\ ay = - (980665 / 100000) - k * vy).
Proof.
  intros Htv Hv. pose proof (speed_pos vx vy Hv) as Hs.
  unfold EquationOfMotion. cbv zeta. split.
  - unfold derv, norm, vg. cbn [col0 col1 fst snd].
    rewrite speed_fin, dc_fin by exact Htv.
    rewrite !fdiv_fin by lra. unfold gc, fsqr. cbn [fneg fmul fadd].
    f_equal; f_equal; ring.
  - split; field; split; lra.
Qed.

Lemma derv_EquationOfMotion_witness :
  derv (Fin 150) (Row (Fin 3) (Fin 4) (Fin 0) (Fin 0)) (Fin 0) =
    (let '(ax, ay, vx', vy') := EquationOfMotion (980665 / 100000) 150 3 4 in
     Row (Fin ax) (Fin ay) (Fin vx') (Fin vy')) /\
  (let '(ax, ay, _, _) := EquationOfMotion (980665 / 100000) 150 3 4 in
   let k := 980665 / 100000 / 150 ^ 2 * sqrt (3 ^ 2 + 4 ^ 2) in
   ax = - k * 3 /\ ay = - (980665 / 100000) - k * 4).
Proof.
  apply (derv_EquationOfMotion 150 3 4 0 0 (Fin 0)).
  - lra.
  - intros H. injection H as H3 H4. lra.
Defined.

(** ** The refined events *)

(** C4.  For finite samples at the lines [m-1], [m], [m+1] with pairwise
    distinct horizontal positions there are quadratics [a*x^2 + b*x + c]
    through the three [(x, y)] pairs, through the three [(x, t)] pairs and
    through the three [(x, vx)] pairs such that, when [a] is not zero,
    [highest] reports [hx = -b / (2a)], the height as the first quadratic
    at [hx], the time and the velocity as the other two at [hx], and the
    angle [0]; [hx] is where [2*a*x + b = 0]. *)
Theorem highest_lagrange_apex (t : list float) (yint : list row) (m : Z)
    (v0 u0 x0 y0 v1 u1 x1 y1 v2 u2 x2 y2 t0 t1 t2 : R) :
  getitem yint (m - 1) = Ok (Row (Fin v0) (Fin u0) (Fin x0) (Fin y0)) ->
  getitem yint m = Ok (Row (Fin v1) (Fin u1) (Fin x1) (Fin y1)) ->
  getitem yint (m + 1) = Ok (Row (Fin v2) (Fin u2) (Fin x2) (Fin y2)) ->
  getitem t (m - 1) = Ok (Fin t0) -> getitem t m = Ok (Fin t1) ->
  getitem t (m + 1) = Ok (Fin t2) ->
  x0 <> x1 -> x0 <> x2 -> x1 <> x2 ->
  exists a b c at' bt ct av bv cv : R,
    fits a b c x0 x1 x2 y0 y1 y2 /\
    fits at' bt ct x0 x1 x2 t0 t1 t2 /\
    fits av bv cv x0 x1 x2 v0 v1 v2 /\
    (a <> 0 ->
     highest t yint m =
       (let hx := - b / (2 * a) in
        Ok (Line (Fin (quadR at' bt ct hx)) (Fin (quadR av bv cv hx)) (Fin 0)
              (Fin (quadR a b c hx)) (Fin hx))) /\
     2 * a * (- b / (2 * a)) + b = 0).
Proof.
  intros Y0 Y1 Y2 T0 T1 T2 H01 H02 H12.
  destruct (highest_fit _ _ _ _ _ _ _ _ _ _ _ _ _ _ _ _ _ _
              Y0 Y1 Y2 T0 T1 T2 H01 H02 H12)
    as (a & b & c & at' & bt & ct & av & bv & cv & Fy & Ft & Fv & E & _).
  exists a, b, c, at', bt, ct, av, bv, cv.
  split; [exact Fy |]. split; [exact Ft |]. split; [exact Fv |].
  intros Ha. split; [exact (E Ha) | field; exact Ha].
Qed.

Lemma highest_lagrange_apex_witness :
  highest flight_t flight_yint 1 =
  Ok (Line (Fin (7 / 6)) (Fin 1) (Fin 0) (Fin (49 / 24)) (Fin (7 / 6))).
Proof.
  destruct (highest_lagrange_apex flight_t flight_yint 1
              1 2 0 0 1 1 1 2 1 (-1) 2 1 0 1 2)
    as (a & b & c & at' & bt & ct & av & bv & cv & Fy & Ft & Fv & E);
    try reflexivity; try lra.
  unfold fits, quadR in Fy, Ft, Fv. simpl pow in Fy, Ft, Fv.
  assert (a = - (3 / 2)) by lra. assert (b = 7 / 2) by lra. assert (c = 0) by lra.
  assert (at' = 0) by lra. assert (bt = 1) by lra. assert (ct = 0) by lra.
  assert (av = 0) by lra. assert (bv = 0) by lra. assert (cv = 1) by lra.
  subst. destruct E as [E _]; [lra |]. rewrite E. cbv zeta. unfold quadR.
  do 2 f_equal; f_equal; field.
Defined.

(** C5.  For finite samples at the lines [n-2], [n-1], [n] with pairwise
    distinct altitudes there are quadratics in the altitude through the
    three values of [x], of [t], of [vx] and of [vy] such that [impact]
    reports each of them at altitude [0] as the impact distance, the impact
    time and the velocity components [ivx], [ivy], the speed
    [sqrt (ivx^2 + ivy^2)], and the altitude [0]. *)
Theorem impact_lagrange_ground (t : list float) (yint : list row) (n : Z)
    (v0 u0 x0 y0 v1 u1 x1 y1 v2 u2 x2 y2 t0 t1 t2 : R) :
  getitem yint (n - 2) = Ok (Row (Fin v0) (Fin u0) (Fin x0) (Fin y0)) ->
  getitem yint (n - 1) = Ok (Row (Fin v1) (Fin u1) (Fin x1) (Fin y1)) ->
  getitem yint n = Ok (Row (Fin v2) (Fin u2) (Fin x2) (Fin y2)) ->
  getitem t (n - 2) = Ok (Fin t0) -> getitem t (n - 1) = Ok (Fin t1) ->
  getitem t n = Ok (Fin t2) ->
  y0 <> y1 -> y0 <> y2 -> y1 <> y2 ->
  exists ax bx cx at' bt ct av bv cv au bu cu : R,
    fits ax bx cx y0 y1 y2 x0 x1 x2 /\
    fits at' bt ct y0 y1 y2 t0 t1 t2 /\
    fits av bv cv y0 y1 y2 v0 v1 v2 /\
    fits au bu cu y0 y1 y2 u0 u1 u2 /\
    impact t yint n =
      (let xid := quadR ax bx cx 0 in
       let xit := quadR at' bt ct 0 in
       let ivx := quadR av bv cv 0 in
       let ivy := quadR au bu cu 0 in
       Ok (Line (Fin xit) (Fin (sqrt (ivx ^ 2 + ivy ^ 2)))
             (impact_angle (Fin ivx) (Fin ivy)) (Fin 0) (Fin xid))).
Proof.
  intros Y0 Y1 Y2 T0 T1 T2 H01 H02 H12.
  destruct (impact_fit _ _ _ _ _ _ _ _ _ _ _ _ _ _ _ _ _ _
              Y0 Y1 Y2 T0 T1 T2 H01 H02 H12)
    as (ax & bx & cx & at' & bt & ct & av & bv & cv & au & bu & cu
        & Fx & Ft & Fv & Fu & E).
  exists ax, bx, cx, at', bt, ct, av, bv, cv, au, bu, cu.
  split; [exact Fx |]. split; [exact Ft |]. split; [exact Fv |]. split; [exact Fu |].
  exact E.
Qed.

Lemma impact_lagrange_ground_witness :
  exists ax bx cx at' bt ct av bv cv au bu cu : R,
    fits ax bx cx 2 1 (-1) 1 2 3 /\
    fits at' bt ct 2 1 (-1) 1 2 3 /\
    fits av bv cv 2 1 (-1) 1 1 1 /\
    fits au bu cu 2 1 (-1) 1 (-1) (-2) /\
    impact flight_t flight_yint 3 =
      (let xid := quadR ax bx cx 0 in
       let xit := quadR at' bt ct 0 in
       let ivx := quadR av bv cv 0 in
       let ivy := quadR au bu cu 0 in
       Ok (Line (Fin xit) (Fin (sqrt (ivx ^ 2 + ivy ^ 2)))
             (impact_angle (Fin ivx) (Fin ivy)) (Fin 0) (Fin xid))).
Proof.
  apply (impact_lagrange_ground flight_t flight_yint 3
           1 1 1 2 1 (-1) 2 1 1 (-2) 3 (-1) 1 2 3);
    try reflexivity; lra.
Defined.

(** ** The impact angle *)

Lemma impact_angle_fin (ivx ivy : R) :
  ivx <> 0 -> impact_angle (Fin ivx) (Fin ivy) = Fin (Rdegrees (atan (ivy / ivx))).
Proof.
  intros H. unfold impact_angle, degrees, Rdegrees.
  rewrite fdiv_fin by exact H. reflexivity.
Qed.

Lemma atan2_right (y x : R) : 0 < x -> atan2 y x = atan (y / x).
Proof. intros H. unfold atan2. destruct (Rlt_dec 0 x); [reflexivity | contradiction]. Qed.

Lemma atan2_left (y x : R) :
  x < 0 -> atan2 y x = if Rlt_dec y 0 then atan (y / x) - PI else atan (y / x) + PI.
Proof.
  intros H. unfold atan2.
  destruct (Rlt_dec 0 x); [lra |]. destruct (Rlt_dec x 0); [reflexivity | contradiction].
Qed.

Lemma degrees_PI : Rdegrees PI = 180.
Proof. unfold Rdegrees. field. apply PI_neq0. Qed.

Lemma degrees_half_PI : PI / 2 * (180 / PI) = 90.
Proof. field. apply PI_neq0. Qed.

(** C6, as the claim states it, fails: for the impact velocity
    [(-1, -1)] the script reports the angle of [arctan 1], which is not
    [atan2 (-1) (-1)] in degrees; and for the impact velocity [(0, 0)] it
    reports NaN, where [atan2 0 0] is [0]. *)
Lemma impact_angle_not_atan2 :
  impact_angle (Fin (-1)) (Fin (-1)) <> Fin (Rdegrees (atan2 (-1) (-1))) /\
  impact_angle (Fin 0) (Fin 0) <> Fin (Rdegrees (atan2 0 0)).
Proof.
  split.
  - rewrite impact_angle_fin by lra.
    rewrite atan2_left by lra.
    destruct (Rlt_dec (-1) 0); [| lra].
    intros H. injection H as H.
    pose proof degrees_PI as HP. unfold Rdegrees in *. lra.
  - unfold impact_angle. rewrite fdiv_zero, Rsgn_zero. discriminate.
Qed.

(** C6, amended.  For a finite impact velocity the impact angle is the
    one-argument arctangent of the numpy quotient [ivy / ivx] in degrees.
    It is [atan2 ivy ivx] in degrees when [0 < ivx], and also when
    [ivx = 0] and [ivy <> 0], where both are [90] or [-90]; it is [180]
    degrees away from it when [ivx < 0]; and it is NaN when both components
    are zero. *)
Theorem impact_angle_arctan (ivx ivy : R) :
  (ivx <> 0 ->
   impact_angle (Fin ivx) (Fin ivy) = Fin (Rdegrees (atan (ivy / ivx)))) /\
  (0 < ivx \/ (ivx = 0 /\ ivy <> 0) ->
   impact_angle (Fin ivx) (Fin ivy) = Fin (Rdegrees (atan2 ivy ivx))) /\
  (ivx = 0 -> 0 < ivy -> impact_angle (Fin ivx) (Fin ivy) = Fin 90) /\
  (ivx = 0 -> ivy < 0 -> impact_angle (Fin ivx) (Fin ivy) = Fin (-90)) /\
  (ivx < 0 ->
   impact_angle (Fin ivx) (Fin ivy) =
   Fin (Rdegrees (atan2 ivy ivx) + (if Rlt_dec ivy 0 then 180 else - 180))) /\
  (ivx = 0 -> ivy = 0 -> impact_angle (Fin ivx) (Fin ivy) = NaN).
Proof.
  assert (Hup : 0 < ivy -> impact_angle (Fin 0) (Fin ivy) = Fin (PI / 2 * (180 / PI))).
  { intros Hy. unfold impact_angle. rewrite fdiv_zero. unfold Rsgn.
    destruct (Rlt_dec ivy 0); [lra |]. destruct (Rlt_dec 0 ivy); [| lra]. reflexivity. }
  assert (Hdn : ivy < 0 -> impact_angle (Fin 0) (Fin ivy) = Fin (- (PI / 2) * (180 / PI))).
  { intros Hy. unfold impact_angle. rewrite fdiv_zero. unfold Rsgn.
    destruct (Rlt_dec ivy 0); [| lra]. reflexivity. }
  pose proof degrees_half_PI as E90.
  split; [intros H; apply impact_angle_fin; exact H |].
  split; [| split; [| split; [| split]]].
  - intros [Hx | [Hx Hy]].
    + rewrite impact_angle_fin by lra. rewrite atan2_right by exact Hx. reflexivity.
    + subst ivx. unfold atan2, Rdegrees.
      destruct (Rlt_dec 0 0); [lra |].
      destruct (Rlt_dec 0 ivy) as [Hp | Hp]; [apply Hup; exact Hp |].
      destruct (Rlt_dec ivy 0) as [Hn | Hn]; [apply Hdn; exact Hn | lra].
  - intros -> Hy. rewrite (Hup Hy). f_equal. exact E90.
  - intros -> Hy. rewrite (Hdn Hy). f_equal. lra.
  - intros Hx. rewrite impact_angle_fin by lra. rewrite atan2_left by exact Hx. f_equal.
    pose proof degrees_PI as HP. unfold Rdegrees in *.
    destruct (Rlt_dec ivy 0); lra.
  - intros -> ->. unfold impact_angle. rewrite fdiv_zero, Rsgn_zero. reflexivity.
Qed.

Lemma impact_angle_arctan_witness :
  impact_angle (Fin 0) (Fin (-1)) = Fin (Rdegrees (atan2 (-1) 0)) /\
  impact_angle (Fin 0) (Fin (-1)) = Fin (-90) /\
  impact_angle (Fin 1) (Fin (-1)) = Fin (Rdegrees (atan2 (-1) 1)).
Proof.
  split; [| split].
  - apply (impact_angle_arctan 0 (-1)). right. split; [reflexivity | lra].
  - apply (impact_angle_arctan 0 (-1)); [reflexivity | lra].
  - apply (impact_angle_arctan 1 (-1)). left. lra.
Defined.

(** ** Runs of the script *)

(** Decides a comparison of two finite values given by numerals. *)
Ltac float_lt :=
  cbn [fmul fadd fneg fsub];
  first [ apply fltb_fin; lra | apply fltb_fin_not; lra ].

Lemma table_break (t : list float) (yint : list row) (n : nat) :
  (n + 1 < length yint)%nat ->
  (n <= length t)%nat ->
  (forall i, (i < n)%nat -> below_ground yint i = false) ->
  below_ground yint n = true ->
  table t yint = Ok (Z.of_nat n, m_after yint 0 n 0, lines_from t yint 0 n).
Proof.
  intros HN Ht Hpos Hneg. unfold table.
  apply (table_loop_break t yint n 0 0%Z []); try assumption.
  intros i Hi. apply Hpos. lia.
Qed.

Lemma table_exhaust (t : list float) (yint : list row) :
  yint <> [] ->
  (forall i, (i + 1 < length yint)%nat -> below_ground yint i = false) ->
  table t yint = Raise IndexError.
Proof.
  intros Hne Hpos. unfold table.
  apply (table_loop_exhaust t yint (length yint - 1) 0 0%Z []).
  - destruct yint; [contradiction | simpl; lia].
  - intros i Hi. apply Hpos. lia.
Qed.

(** With its three indices in range, from either end, [highest] raises
    nothing but the [ZeroDivisionError] of a constant fit, and [impact]
    raises nothing. *)
Lemma highest_total (t : list float) (yint : list row) (m : Z) :
  length t = length yint ->
  (- Z.of_nat (length yint) <= m - 1)%Z -> (m + 1 < Z.of_nat (length yint))%Z ->
  (exists h, highest t yint m = Ok h) \/ highest t yint m = Raise ZeroDivisionError.
Proof.
  intros HL Hlo Hhi.
  destruct (getitem_in_range yint (m - 1)) as [r0 Y0]; [lia |].
  destruct (getitem_in_range yint m) as [r1 Y1]; [lia |].
  destruct (getitem_in_range yint (m + 1)) as [r2 Y2]; [lia |].
  destruct (getitem_in_range t (m - 1)) as [t0 T0]; [lia |].
  destruct (getitem_in_range t m) as [t1 T1]; [lia |].
  destruct (getitem_in_range t (m + 1)) as [t2 T2]; [lia |].
  rewrite (highest_bracket _ _ _ _ _ _ _ _ _ Y0 Y1 Y2 T0 T1 T2). cbv zeta.
  destruct (py_div _ _) as [q | e] eqn:E.
  - left. rewrite bind_Ok. eexists. reflexivity.
  - right. rewrite (py_div_raises _ _ _ E). reflexivity.
Qed.

Lemma impact_total (t : list float) (yint : list row) (n : Z) :
  length t = length yint ->
  (- Z.of_nat (length yint) <= n - 2)%Z -> (n < Z.of_nat (length yint))%Z ->
  exists i, impact t yint n = Ok i.
Proof.
  intros HL Hlo Hhi.
  destruct (getitem_in_range yint (n - 2)) as [r0 Y0]; [lia |].
  destruct (getitem_in_range yint (n - 1)) as [r1 Y1]; [lia |].
  destruct (getitem_in_range yint n) as [r2 Y2]; [lia |].
  destruct (getitem_in_range t (n - 2)) as [t0 T0]; [lia |].
  destruct (getitem_in_range t (n - 1)) as [t1 T1]; [lia |].
  destruct (getitem_in_range t n) as [t2 T2]; [lia |].
  rewrite (impact_bracket _ _ _ _ _ _ _ _ _ Y0 Y1 Y2 T0 T1 T2). eexists. reflexivity.
Qed.

(** After the table the run ends with the report, unless the apex fit is
    constant. *)
Lemma BalTrj_after_table (t : list float) (yint : list row)
    (n m : Z) (out : list line) :
  length t = length yint ->
  table t yint = Ok (n, m, out) ->
  (0 <= m <= n)%Z -> (0 <= n)%Z -> (n + 1 < Z.of_nat (length yint))%Z ->
  exists i,
    impact t yint n = Ok i /\
    ((exists h, highest t yint m = Ok h /\ BalTrj t yint = Ok (Report out h i)) \/
     (highest t yint m = Raise ZeroDivisionError /\
      BalTrj t yint = Raise ZeroDivisionError)).
Proof.
  intros HL Htab Hm Hn HN.
  destruct (impact_total t yint n HL) as [i Hi]; [lia | lia |].
  exists i. split; [exact Hi |].
  destruct (highest_total t yint m HL) as [[h Hh] | Hh]; [lia | lia | |].
  - left. exists h. split; [exact Hh |].
    unfold BalTrj. rewrite Htab, bind_Ok, Hh, bind_Ok, Hi, bind_Ok. reflexivity.
  - right. split; [exact Hh |].
    unfold BalTrj. rewrite Htab, bind_Ok, Hh. reflexivity.
Qed.

(** A run whose apex refinement returns ends with the report. *)
Lemma BalTrj_report (t : list float) (yint : list row)
    (n m : Z) (out : list line) (h i : line) :
  table t yint = Ok (n, m, out) -> highest t yint m = Ok h ->
  impact t yint n = Ok i -> BalTrj t yint = Ok (Report out h i).
Proof.
  intros Htab Hh Hi. unfold BalTrj.
  rewrite Htab, bind_Ok, Hh, bind_Ok, Hi, bind_Ok. reflexivity.
Qed.




Lemma getitem_wrap {A : Type} (l : list A) (i : Z) :
  (- Z.of_nat (length l) <= i < 0)%Z ->
  getitem l i = getitem l (Z.of_nat (length l) + i).
Proof.
  intros H. unfold getitem.
  replace (i <? 0)%Z with true by lia.
  replace (Z.of_nat (length l) + i <? 0)%Z with false by lia.
  reflexivity.
Qed.

Lemma getitem_from_end {A : Type} (l : list A) (i : Z) (k : nat) (a : A) :
  (i < 0)%Z -> Z.of_nat k = (Z.of_nat (length l) + i)%Z ->
  nth_error l k = Some a -> getitem l i = Ok a.
Proof.
  intros Hi Hk H. rewrite getitem_wrap by lia. rewrite <- Hk.
  apply getitem_front. exact H.
Qed.

(** The loop keeps the lines before the first line of negative altitude,
    one output line for each, in order. *)
Lemma table_retains_prefix (t : list float) (yint : list row) (n : nat) :
  (n + 1 < length yint)%nat ->
  (n <= length t)%nat ->
  (forall i, (i < n)%nat -> below_ground yint i = false) ->
  below_ground yint n = true ->
  exists m out,
    table t yint = Ok (Z.of_nat n, m, out) /\
    length out = n /\
    forall k, (k < n)%nat ->
      nth_error out k = Some (line_of t yint k) /\
      l_time (line_of t yint k) = nth k t NaN /\
      (l_height (line_of t yint k) [<] Fin 0) = false.
Proof.
  intros HN Ht Hpos Hneg.
  exists (m_after yint 0 n 0), (lines_from t yint 0 n).
  split; [apply table_break; assumption |]. unfold lines_from.
  split; [rewrite length_map, length_seq; reflexivity |].
  intros k Hk. split; [| split].
  - rewrite nth_error_map, nth_error_seq.
    replace (k <? n)%nat with true by (symmetry; apply Nat.ltb_lt; exact Hk).
    reflexivity.
  - reflexivity.
  - specialize (Hpos k Hk). unfold below_ground in Hpos. unfold line_of. simpl.
    destruct (nth_error yint k) as [x |] eqn:E.
    + rewrite (nth_error_nth _ _ _ E). exact Hpos.
    + apply nth_error_None in E. lia.
Qed.

(** C2, at the input where the code leaves the claim: the first line of
    negative altitude is line 1, the last line of the table, and the loop
    does not halt there keeping line 0 but raises the index error, from the
    sign test that reads line 2. *)
Theorem table_drop_index_error :
  below_ground drop_yint 0 = false /\
  below_ground drop_yint 1 = true /\
  table drop_t drop_yint = Raise IndexError /\
  BalTrj drop_t drop_yint = Raise IndexError.
Proof.
  assert (H0 : below_ground drop_yint 0 = false)
    by (unfold below_ground, drop_yint; cbn [nth_error col3]; float_lt).
  assert (H1 : below_ground drop_yint 1 = true)
    by (unfold below_ground, drop_yint; cbn [nth_error col3]; float_lt).
  assert (HT : table drop_t drop_yint = Raise IndexError).
  { apply table_exhaust; [discriminate |].
    intros i Hi. simpl in Hi. assert (i = 0%nat) by lia. subst i. exact H0. }
  repeat split; try assumption.
  unfold BalTrj. rewrite HT. reflexivity.
Qed.




(** *** No sign change, no negative altitude *)

Lemma dive_no_sign_change (k : nat) : sign_change dive_yint k = false.
Proof.
  destruct k as [| [| [| [| k]]]];
    unfold sign_change, dive_yint; cbn [nth_error col1];
    try reflexivity; float_lt.
Qed.

Lemma dive_table :
  table dive_t dive_yint = Ok (1%Z, 0%Z, lines_from dive_t dive_yint 0 1).
Proof.
  rewrite (table_break _ _ 1).
  - rewrite m_after_none; [reflexivity |].
    intros i _. apply dive_no_sign_change.
  - simpl. lia.
  - simpl. lia.
  - intros i Hi. destruct i as [| i]; try lia;
      unfold below_ground, dive_yint; cbn [nth_error col3]; float_lt.
  - unfold below_ground, dive_yint; cbn [nth_error col3]; float_lt.
Qed.

(** C7, as the claim states it, fails: on a downward launch, whose
    vertical velocity never changes sign, the run raises nothing and prints
    a highest point, computed from the lines 2, 0 and 1: above the ground
    and behind the launch point, at a negative time. *)
Lemma dive_fabricated_apex :
  (forall k, sign_change dive_yint k = false) /\
  exists out i,
    BalTrj dive_t dive_yint =
    Ok (Report out
          (Line (Fin (- (11 / 105))) (Fin (431 / 105)) (Fin 0) (Fin (1 / 42))
             (Fin (- (1 / 2)))) i).
Proof.
  split; [exact dive_no_sign_change |].
  destruct (impact_total dive_t dive_yint 1 eq_refl) as [i Hi];
    [simpl; lia | simpl; lia |].
  exists (lines_from dive_t dive_yint 0 1), i.
  apply (BalTrj_report _ _ 1 0 _ _ _ dive_table); [| exact Hi].
  destruct (highest_fit dive_t dive_yint 0
              2 (-3) 6 (-4) 4 (-1) 0 0 3 (-2) (7 / 2) (- (3 / 2)) 2 0 1)
    as (a & b & c & at' & bt & ct & av & bv & cv & Fy & Ft & Fv & E & _);
    try reflexivity; try lra.
  unfold fits, quadR in Fy, Ft, Fv. simpl pow in Fy, Ft, Fv.
  assert (a = - (2 / 21)) by lra. assert (b = - (2 / 21)) by lra.
  assert (c = 0) by lra.
  assert (at' = 2 / 105) by lra. assert (bt = 23 / 105) by lra.
  assert (ct = 0) by lra.
  assert (av = - (2 / 105)) by lra. assert (bv = - (23 / 105)) by lra.
  assert (cv = 4) by lra.
  subst. rewrite E by lra. cbv zeta. unfold quadR.
  do 2 f_equal; f_equal; field.
Qed.

(** C7, amended.  When the first line of negative altitude is line [n],
    not the last line, and no line up to [n] shows a sign change of the
    vertical velocity, the loop leaves [m = 0] and no [NoApexFound] is
    raised: the apex refinement runs for [m = 0], on the last line and the
    lines 0 and 1, and the run prints the [n] table lines, the highest
    point that [highest] computes for [m = 0] and an impact point, unless
    line 74 divides zero by zero on a constant fit.  When these three lines
    are finite, with pairwise distinct horizontal positions and altitudes
    that are not all equal, a highest point is printed. *)
Theorem no_sign_change_no_error (t : list float) (yint : list row) (n : nat) :
  length t = length yint ->
  (n + 1 < length yint)%nat ->
  (forall i, (i < n)%nat -> below_ground yint i = false) ->
  below_ground yint n = true ->
  (forall i, (i <= n)%nat -> sign_change yint i = false) ->
  table t yint = Ok (Z.of_nat n, 0%Z, lines_from t yint 0 n) /\
  BalTrj t yint <> Raise NoApexFound /\
  exists i,
    impact t yint (Z.of_nat n) = Ok i /\
    ((exists h,
        highest t yint 0 = Ok h /\
        BalTrj t yint = Ok (Report (lines_from t yint 0 n) h i)) \/
     (highest t yint 0 = Raise ZeroDivisionError /\
      BalTrj t yint = Raise ZeroDivisionError)) /\
    forall vl ul xl yl v0 u0 x0 y0 v1 u1 x1 y1 tl t0 t1 : R,
      nth_error yint (length yint - 1) =
        Some (Row (Fin vl) (Fin ul) (Fin xl) (Fin yl)) ->
      nth_error yint 0 = Some (Row (Fin v0) (Fin u0) (Fin x0) (Fin y0)) ->
      nth_error yint 1 = Some (Row (Fin v1) (Fin u1) (Fin x1) (Fin y1)) ->
      nth_error t (length yint - 1) = Some (Fin tl) ->
      nth_error t 0 = Some (Fin t0) -> nth_error t 1 = Some (Fin t1) ->
      xl <> x0 -> xl <> x1 -> x0 <> x1 ->
      yl <> y0 \/ y0 <> y1 ->
      exists h,
        highest t yint 0 = Ok h /\
        BalTrj t yint = Ok (Report (lines_from t yint 0 n) h i).
Proof.
  intros HL HN Hpos Hneg Hnc.
  assert (HT : table t yint = Ok (Z.of_nat n, 0%Z, lines_from t yint 0 n)).
  { rewrite (table_break _ _ n); try assumption; [| lia].
    rewrite m_after_none; [reflexivity |]. intros i Hi. apply Hnc. lia. }
  split; [exact HT |].
  destruct (BalTrj_after_table t yint _ _ _ HL HT) as (i & Hi & HB);
    [lia | lia | lia |].
  split.
  - destruct HB as [(h & _ & HB) | (_ & HB)]; rewrite HB; discriminate.
  - exists i. split; [exact Hi |]. split; [exact HB |].
    intros vl ul xl yl v0 u0 x0 y0 v1 u1 x1 y1 tl t0 t1
      Yl Y0 Y1 Tl T0 T1 Hl0 Hl1 H01 Hy.
    destruct (highest_fit t yint 0 vl ul xl yl v0 u0 x0 y0 v1 u1 x1 y1 tl t0 t1)
      as (a & b & c & at' & bt & ct & av & bv & cv & Fy & _ & _ & _ & Eok & _);
      try assumption.
    + apply (getitem_from_end yint _ (length yint - 1)%nat); [lia | lia | exact Yl].
    + exact (getitem_front yint 0%nat _ Y0).
    + exact (getitem_front yint 1%nat _ Y1).
    + apply (getitem_from_end t _ (length yint - 1)%nat); [lia | lia | exact Tl].
    + exact (getitem_front t 0%nat _ T0).
    + exact (getitem_front t 1%nat _ T1).
    + destruct Eok as [h Hh].
      * unfold fits, quadR in Fy. destruct Fy as (Fl & F0 & F1).
        destruct (Req_dec_T a 0) as [Ha | Ha]; [| left; exact Ha].
        destruct (Req_dec_T b 0) as [Hb | Hb]; [| right; exact Hb].
        exfalso. subst a b. destruct Hy as [Hy | Hy]; apply Hy; lra.
      * exists h. split; [exact Hh |].
        exact (BalTrj_report _ _ _ _ _ _ _ HT Hh Hi).
Qed.

Lemma no_sign_change_no_error_witness :
  table dive_t dive_yint = Ok (1%Z, 0%Z, lines_from dive_t dive_yint 0 1) /\
  BalTrj dive_t dive_yint <> Raise NoApexFound /\
  exists h i,
    highest dive_t dive_yint 0 = Ok h /\
    BalTrj dive_t dive_yint = Ok (Report (lines_from dive_t dive_yint 0 1) h i).
Proof.
  destruct (no_sign_change_no_error dive_t dive_yint 1) as (HT & HN & i & _ & _ & Hfit).
  - reflexivity.
  - simpl. lia.
  - intros i Hi. destruct i as [| i]; try lia;
      unfold below_ground, dive_yint; cbn [nth_error col3]; float_lt.
  - unfold below_ground, dive_yint; cbn [nth_error col3]; float_lt.
  - intros i _. apply dive_no_sign_change.
  - split; [exact HT |]. split; [exact HN |].
    destruct (Hfit 2 (-3) 6 (-4) 4 (-1) 0 0 3 (-2) (7 / 2) (- (3 / 2)) 2 0 1)
      as (h & Hh & HB); try reflexivity; try lra.
    exists h, i. split; assumption.
Defined.

Lemma hover_above_ground (k : nat) : below_ground hover_yint k = false.
Proof.
  destruct k as [| [| [| k]]];
    unfold below_ground, hover_yint; cbn [nth_error col3];
    try reflexivity; float_lt.
Qed.

Lemma BalTrj_no_negative_altitude (t : list float) (yint : list row) :
  (forall i, (i + 1 < length yint)%nat -> below_ground yint i = false) ->
  BalTrj t yint = Raise IndexError.
Proof.
  intros H. destruct yint as [| x yint].
  - reflexivity.
  - unfold BalTrj. rewrite table_exhaust; [reflexivity | discriminate | exact H].
Qed.

(** C8, as the claim states it, fails: on a table without any negative
    altitude the run ends in the index error, not in [NoImpactFound]. *)
Lemma hover_index_error :
  (forall k, below_ground hover_yint k = false) /\
  BalTrj hover_t hover_yint = Raise IndexError /\
  BalTrj hover_t hover_yint <> Raise NoImpactFound.
Proof.
  assert (H : BalTrj hover_t hover_yint = Raise IndexError)
    by (apply BalTrj_no_negative_altitude; intros i _; apply hover_above_ground).
  split; [exact hover_above_ground |]. split; [exact H |].
  rewrite H. discriminate.
Qed.

(** C8, amended.  On a table without any line of negative altitude the run
    ends in the index error: on the last line the sign test reads one line
    beyond the table (and on an empty table [highest] reads line [-1]). *)
Theorem no_negative_altitude_index_error (t : list float) (yint : list row) :
  (forall k, below_ground yint k = false) ->
  table t yint <> Raise NoImpactFound /\
  BalTrj t yint = Raise IndexError.
Proof.
  intros H. split.
  - destruct yint as [| x yint]; [discriminate |].
    rewrite table_exhaust; [discriminate | discriminate |].
    intros i _. apply H.
  - apply BalTrj_no_negative_altitude. intros i _. apply H.
Qed.

Lemma no_negative_altitude_index_error_witness :
  table hover_t hover_yint <> Raise NoImpactFound /\
  BalTrj hover_t hover_yint = Raise IndexError.
Proof.
  apply (no_negative_altitude_index_error hover_t hover_yint).
  exact hover_above_ground.
Defined.

(** *** Negative indices *)





(** ** Fits through coinciding abscissas *)

Lemma nf_inf_of (s : comparison) : nonfinite (inf_of s).
Proof. destruct s; reflexivity. Qed.

Lemma nf_neg (a : float) : nonfinite a -> nonfinite (fneg a).
Proof. destruct a; simpl; intros H; try discriminate; reflexivity. Qed.

Lemma nf_add_l (a b : float) : nonfinite a -> nonfinite (a [+] b).
Proof. destruct a, b; simpl; intros H; try discriminate; reflexivity. Qed.

Lemma nf_add_r (a b : float) : nonfinite b -> nonfinite (a [+] b).
Proof. destruct a, b; simpl; intros H; try discriminate; reflexivity. Qed.

Lemma nf_mul_l (a b : float) : nonfinite a -> nonfinite (a [*] b).
Proof.
  destruct a, b; simpl; intros H; try discriminate; try reflexivity; apply nf_inf_of.
Qed.

Lemma nf_mul_r (a b : float) : nonfinite b -> nonfinite (a [*] b).
Proof.
  destruct a, b; simpl; intros H; try discriminate; try reflexivity; apply nf_inf_of.
Qed.

Lemma nf_div_l (a b : float) : nonfinite a -> nonfinite (a [/] b).
Proof.
  destruct a, b as [y | | |]; simpl; intros H; try discriminate; try reflexivity;
    destruct (Rlt_dec y 0); reflexivity.
Qed.

Lemma nf_mul_zero (a : float) : nonfinite a -> a [*] Fin 0 = NaN.
Proof.
  destruct a; simpl; intros H; try discriminate; rewrite ?Rsgn_zero; reflexivity.
Qed.

Lemma nf_polyval (p : poly) (x : float) :
  nonfinite x -> p <> [] -> polyval p x = NaN.
Proof. intros Hx Hp. apply polyval_nonfinite; assumption. Qed.

Lemma poly1d_single (w : R) : poly1d [Fin w] = [Fin w].
Proof.
  unfold poly1d. simpl. destruct (Req_dec_T w 0) as [-> | H]; reflexivity.
Qed.

Lemma poly1d_nf_head (a : float) (c : list float) :
  nonfinite a -> poly1d (a :: c) = a :: c.
Proof. destruct a; simpl; intros H; try discriminate; reflexivity. Qed.

Lemma poly1d_fin_head (r : R) (c : list float) :
  r <> 0 -> poly1d (Fin r :: c) = Fin r :: c.
Proof.
  intros H. unfold poly1d. simpl.
  destruct (Req_dec_T r 0); [contradiction | reflexivity].
Qed.

Lemma poly1d_length (c : list float) :
  (1 <= length (poly1d c) <= Nat.max 1 (length c))%nat.
Proof.
  assert (H : (length (trim_zeros c) <= length c)%nat).
  { induction c as [| a c IH]; simpl; [lia |].
    destruct a as [r | | |]; simpl; try lia.
    destruct (Req_dec_T r 0); simpl; lia. }
  unfold poly1d. destruct (trim_zeros c); cbn [length] in *; lia.
Qed.

(** The linear factor of [lagrange] for two equal and for two distinct
    abscissas. *)
Lemma factor_nf (x : R) :
  poly_div (poly1d [Fin 1; fneg (Fin x)]) (Fin x [-] Fin x) =
  [PInf; inf_of (Rsgn (- x))].
Proof.
  simpl fneg. unfold fsub. simpl fneg. simpl fadd.
  rewrite poly1d_fin_head by lra. unfold poly_div. cbn [map].
  replace (x + - x) with 0 by ring.
  rewrite !fdiv_zero, Rsgn_pos by lra. reflexivity.
Qed.

Lemma factor_fin (xj xk : R) :
  xj <> xk ->
  poly_div (poly1d [Fin 1; fneg (Fin xk)]) (Fin xj [-] Fin xk) =
  [Fin (1 / (xj + - xk)); Fin (- xk / (xj + - xk))].
Proof.
  intros H. simpl fneg. unfold fsub. simpl fneg. simpl fadd.
  rewrite poly1d_fin_head by lra. unfold poly_div. cbn [map].
  rewrite !fdiv_fin by lra. apply poly1d_fin_head.
  intros E. apply (Rmult_eq_compat_r (xj + - xk)) in E.
  unfold Rdiv in E. rewrite Rmult_assoc, Rinv_l in E by lra. lra.
Qed.

Lemma factor_two (xj xk : R) :
  exists f1 f2,
    poly_div (poly1d [Fin 1; fneg (Fin xk)]) (Fin xj [-] Fin xk) = [f1; f2].
Proof.
  destruct (Req_dec_T xj xk) as [-> | H].
  - rewrite factor_nf. eauto.
  - rewrite factor_fin by exact H. eauto.
Qed.

Lemma term_nf_first (w : R) (n1 n2 f1 f2 : float) :
  nonfinite n1 -> nonfinite n2 ->
  low_nonfinite (poly_mul (poly_mul (poly1d [Fin w]) [n1; n2]) [f1; f2]).
Proof.
  intros H1 H2. rewrite poly1d_single. unfold poly_mul. cbn [convolve map addh].
  rewrite (poly1d_nf_head (Fin w [*] n1)) by (apply nf_mul_r; exact H1).
  cbn [convolve map addh].
  rewrite poly1d_nf_head by (apply nf_mul_l, nf_mul_r; exact H1).
  eexists _, _. split; [| split; [| right; eexists; reflexivity]].
  - apply nf_add_l, nf_mul_l, nf_mul_r. exact H1.
  - apply nf_mul_l, nf_mul_r. exact H2.
Qed.

Lemma term_nf_second (w f1 f2 : R) (n1 n2 : float) :
  nonfinite n1 -> nonfinite n2 ->
  low_nonfinite (poly_mul (poly_mul (poly1d [Fin w]) [Fin f1; Fin f2]) [n1; n2]).
Proof.
  intros H1 H2. rewrite poly1d_single.
  unfold poly_mul at 2. cbn [convolve map addh].
  pose proof (poly1d_length [Fin w [*] Fin f1; Fin w [*] Fin f2]) as HL.
  destruct (poly1d [Fin w [*] Fin f1; Fin w [*] Fin f2]) as [| a0 [| a1 [| a2 A]]];
    cbn [length] in HL; try lia.
  - unfold poly_mul. cbn [convolve map addh].
    rewrite poly1d_nf_head by (apply nf_mul_r; exact H1).
    eexists _, _. split; [| split; [| left; reflexivity]];
      apply nf_mul_r; assumption.
  - unfold poly_mul. cbn [convolve map addh].
    rewrite poly1d_nf_head by (apply nf_mul_r; exact H1).
    eexists _, _. split; [| split; [| right; eexists; reflexivity]].
    + apply nf_add_l, nf_mul_r. exact H2.
    + apply nf_mul_r. exact H2.
Qed.

(** The term of [lagrange] for the abscissa [xj] against [xk] and [xl]. *)
Lemma term_low_nonfinite (w xj xk xl : R) :
  xj = xk \/ xj = xl ->
  low_nonfinite
    (poly_mul
       (poly_mul (poly1d [Fin w]) (poly_div (poly1d [Fin 1; fneg (Fin xk)]) (Fin xj [-] Fin xk)))
       (poly_div (poly1d [Fin 1; fneg (Fin xl)]) (Fin xj [-] Fin xl))).
Proof.
  intros H. destruct (Req_dec_T xj xk) as [-> | Hk].
  - rewrite factor_nf. destruct (factor_two xk xl) as (f1 & f2 & ->).
    apply term_nf_first; [reflexivity | apply nf_inf_of].
  - destruct H as [H | ->]; [contradiction |].
    rewrite (factor_fin xl xk) by exact Hk. rewrite factor_nf.
    apply term_nf_second; [reflexivity | apply nf_inf_of].
Qed.

Lemma term_length (w xj xk xl : R) :
  (1 <= length
     (poly_mul
        (poly_mul (poly1d [Fin w]) (poly_div (poly1d [Fin 1; fneg (Fin xk)]) (Fin xj [-] Fin xk)))
        (poly_div (poly1d [Fin 1; fneg (Fin xl)]) (Fin xj [-] Fin xl))) <= 3)%nat.
Proof.
  destruct (Req_dec_T xj xk) as [Hk | Hk]; [| destruct (Req_dec_T xj xl) as [Hl | Hl]].
  - destruct (term_low_nonfinite w xj xk xl (or_introl Hk))
      as (a & b & _ & _ & [-> | [c ->]]); simpl; lia.
  - destruct (term_low_nonfinite w xj xk xl (or_intror Hl))
      as (a & b & _ & _ & [-> | [c ->]]); simpl; lia.
  - split; [apply poly_length_pos_mul |].
    destruct (represents_term w xj xk xl Hk Hl) as (_ & H & _). exact H.
Qed.

Lemma poly1d_low2 (a b : float) :
  nonfinite a -> nonfinite b -> low_nonfinite (poly1d [a; b]).
Proof.
  intros Ha Hb. rewrite poly1d_nf_head by exact Ha.
  exists a, b. split; [exact Ha | split; [exact Hb | left; reflexivity]].
Qed.

Lemma poly1d_low3 (c a b : float) :
  nonfinite a -> nonfinite b -> low_nonfinite (poly1d [c; a; b]).
Proof.
  intros Ha Hb. exists a, b. split; [exact Ha | split; [exact Hb |]].
  unfold poly1d. destruct c as [r | | |]; cbn [trim_zeros];
    try (right; eexists; reflexivity).
  destruct (Req_dec_T r 0).
  - left. destruct a; try discriminate; reflexivity.
  - right. eexists. reflexivity.
Qed.

Lemma poly_add_low_r (p q : poly) :
  (1 <= length p <= 3)%nat -> low_nonfinite q -> low_nonfinite (poly_add p q).
Proof.
  intros HL (a & b & Ha & Hb & [-> | [c ->]]);
    destruct p as [| p0 [| p1 [| p2 [| p3 p]]]]; cbn [length] in HL; try lia;
    unfold poly_add, polyadd, pad; cbn [length Nat.sub repeat app combine map fst snd];
    first [ apply poly1d_low2 | apply poly1d_low3 ];
    first [ apply nf_add_r; assumption ].
Qed.

Lemma poly_add_low_l (p q : poly) :
  low_nonfinite p -> (1 <= length q <= 3)%nat -> low_nonfinite (poly_add p q).
Proof.
  intros (a & b & Ha & Hb & [-> | [c ->]]) HL;
    destruct q as [| q0 [| q1 [| q2 [| q3 q]]]]; cbn [length] in HL; try lia;
    unfold poly_add, polyadd, pad; cbn [length Nat.sub repeat app combine map fst snd];
    first [ apply poly1d_low2 | apply poly1d_low3 ];
    first [ apply nf_add_l; assumption ].
Qed.

Lemma poly_add_length (p q : poly) :
  (length p <= 3)%nat -> (length q <= 3)%nat ->
  (1 <= length (poly_add p q) <= 3)%nat.
Proof.
  intros Hp Hq. unfold poly_add.
  pose proof (poly1d_length (polyadd p q)) as H.
  assert (HL : (length (polyadd p q) <= 3)%nat).
  { unfold polyadd, pad.
    rewrite length_map, length_combine, !length_app, !repeat_length. lia. }
  lia.
Qed.

(** A fit whose abscissas are not pairwise distinct has infinities or NaNs
    as its two lowest coefficients. *)
Lemma lagrange3_low_nonfinite (x0 x1 x2 w0 w1 w2 : R) :
  x0 = x1 \/ x0 = x2 \/ x1 = x2 ->
  low_nonfinite (lagrange [Fin x0; Fin x1; Fin x2] [Fin w0; Fin w1; Fin w2]).
Proof.
  intros H. rewrite lagrange_unfold3.
  pose proof (term_length w0 x0 x1 x2) as L0.
  pose proof (term_length w1 x1 x0 x2) as L1.
  pose proof (term_length w2 x2 x0 x1) as L2.
  assert (LZ : (length (poly1d [Fin 0]) <= 3)%nat)
    by (rewrite poly1d_single; simpl; lia).
  destruct (Req_dec_T x0 x1) as [E01 | N01];
    [| destruct (Req_dec_T x0 x2) as [E02 | N02]].
  - apply poly_add_low_l; [| exact L2].
    apply poly_add_low_l; [| exact L1].
    apply poly_add_low_r; [rewrite poly1d_single; simpl; lia |].
    apply term_low_nonfinite. left. exact E01.
  - apply poly_add_low_l; [| exact L2].
    apply poly_add_low_l; [| exact L1].
    apply poly_add_low_r; [rewrite poly1d_single; simpl; lia |].
    apply term_low_nonfinite. right. exact E02.
  - assert (E12 : x1 = x2) by (destruct H as [H | [H | H]]; [contradiction | contradiction | exact H]).
    apply poly_add_low_l; [| exact L2].
    apply poly_add_low_r; [apply poly_add_length; lia |].
    apply term_low_nonfinite. right. exact E12.
Qed.

Lemma low_nonfinite_coef1 (p : poly) :
  low_nonfinite p -> exists a, coef p 1 = Np a /\ nonfinite a.
Proof.
  intros (a & b & Ha & _ & [-> | [c ->]]); exists a; split;
    try reflexivity; exact Ha.
Qed.

Lemma low_nonfinite_at_zero (p : poly) : low_nonfinite p -> polyval p (Fin 0) = NaN.
Proof.
  intros (a & b & Ha & Hb & [-> | [c ->]]); unfold polyval; cbn [fold_left].
  - rewrite (nf_mul_zero (Fin 0 [*] Fin 0 [+] a)) by (apply nf_add_r; exact Ha).
    reflexivity.
  - rewrite (nf_mul_zero ((Fin 0 [*] Fin 0 [+] c) [*] Fin 0 [+] a))
      by (apply nf_add_r; exact Ha).
    reflexivity.
Qed.

Lemma lagrange3_nonempty (x0 x1 x2 w0 w1 w2 : float) :
  lagrange [x0; x1; x2] [w0; w1; w2] <> [].
Proof.
  rewrite lagrange_unfold3. unfold poly_add at 1, poly1d.
  destruct (trim_zeros _); discriminate.
Qed.

(** The highest point of a bracket whose horizontal positions are not
    pairwise distinct: nothing is raised, and every computed field is an
    infinity or a NaN. *)
Lemma highest_degenerate (t : list float) (yint : list row) (m : Z)
    (v0 u0 x0 y0 v1 u1 x1 y1 v2 u2 x2 y2 : R) (t0 t1 t2 : float) :
  getitem yint (m - 1) = Ok (Row (Fin v0) (Fin u0) (Fin x0) (Fin y0)) ->
  getitem yint m = Ok (Row (Fin v1) (Fin u1) (Fin x1) (Fin y1)) ->
  getitem yint (m + 1) = Ok (Row (Fin v2) (Fin u2) (Fin x2) (Fin y2)) ->
  getitem t (m - 1) = Ok t0 -> getitem t m = Ok t1 -> getitem t (m + 1) = Ok t2 ->
  x0 = x1 \/ x0 = x2 \/ x1 = x2 ->
  exists hx, nonfinite hx /\ highest t yint m = Ok (Line NaN NaN (Fin 0) NaN hx).
Proof.
  intros Y0 Y1 Y2 T0 T1 T2 H.
  rewrite (highest_bracket _ _ _ _ _ _ _ _ _ Y0 Y1 Y2 T0 T1 T2).
  cbv zeta. cbn [col0 col1 col2 col3].
  pose proof (lagrange3_low_nonfinite x0 x1 x2 y0 y1 y2 H) as Hlow.
  destruct (low_nonfinite_coef1 _ Hlow) as (a & Ea & Ha).
  rewrite Ea, py_div_np, bind_Ok. cbn [as_float].
  set (hx := fneg a [/] _).
  assert (Hhx : nonfinite hx) by (apply nf_div_l, nf_neg; exact Ha).
  exists hx. split; [exact Hhx |].
  rewrite !(nf_polyval _ hx Hhx) by apply lagrange3_nonempty. reflexivity.
Qed.

(** The impact point of a bracket whose altitudes are not pairwise
    distinct. *)
Lemma impact_degenerate (t : list float) (yint : list row) (n : Z)
    (v0 u0 x0 y0 v1 u1 x1 y1 v2 u2 x2 y2 t0 t1 t2 : R) :
  getitem yint (n - 2) = Ok (Row (Fin v0) (Fin u0) (Fin x0) (Fin y0)) ->
  getitem yint (n - 1) = Ok (Row (Fin v1) (Fin u1) (Fin x1) (Fin y1)) ->
  getitem yint n = Ok (Row (Fin v2) (Fin u2) (Fin x2) (Fin y2)) ->
  getitem t (n - 2) = Ok (Fin t0) -> getitem t (n - 1) = Ok (Fin t1) ->
  getitem t n = Ok (Fin t2) ->
  y0 = y1 \/ y0 = y2 \/ y1 = y2 ->
  impact t yint n = Ok (Line NaN NaN NaN (Fin 0) NaN).
Proof.
  intros Y0 Y1 Y2 T0 T1 T2 H.
  rewrite (impact_bracket _ _ _ _ _ _ _ _ _ Y0 Y1 Y2 T0 T1 T2).
  cbv zeta. cbn [col0 col1 col2 col3].
  rewrite !low_nonfinite_at_zero by (apply lagrange3_low_nonfinite; exact H).
  reflexivity.
Qed.

(** C9, as the claim states it, fails: for the three lines of a vertical
    launch, whose horizontal positions coincide, [highest] does not end in
    [DegenerateFit]; it returns a highest point whose time, velocity and
    height are NaN and whose distance is an infinity or a NaN. *)
Lemma vertical_launch_returns_nan :
  highest vertical_t vertical_yint 1 <> Raise DegenerateFit /\
  exists hx,
    nonfinite hx /\
    highest vertical_t vertical_yint 1 = Ok (Line NaN NaN (Fin 0) NaN hx).
Proof.
  destruct (highest_degenerate vertical_t vertical_yint 1
              0 2 0 0 0 1 0 2 0 (-1) 0 2 (Fin 0) (Fin 1) (Fin 2))
    as (hx & Hnf & E); try reflexivity; [left; reflexivity |].
  split; [rewrite E; discriminate |].
  exists hx. split; assumption.
Qed.

(** C9, amended.  For three finite lines [i-1], [i], [i+1] no refinement
    raises an error.  When their horizontal positions are not pairwise
    distinct, [highest] at [m = i] returns NaN as time, velocity and height
    and an infinity or a NaN as distance; when their altitudes are not
    pairwise distinct, [impact] at [n = i+1] returns NaN as time, speed,
    angle and distance. *)
Theorem coinciding_abscissas_nonfinite (t : list float) (yint : list row) (i : Z)
    (v0 u0 x0 y0 v1 u1 x1 y1 v2 u2 x2 y2 t0 t1 t2 : R) :
  getitem yint (i - 1) = Ok (Row (Fin v0) (Fin u0) (Fin x0) (Fin y0)) ->
  getitem yint i = Ok (Row (Fin v1) (Fin u1) (Fin x1) (Fin y1)) ->
  getitem yint (i + 1) = Ok (Row (Fin v2) (Fin u2) (Fin x2) (Fin y2)) ->
  getitem t (i - 1) = Ok (Fin t0) -> getitem t i = Ok (Fin t1) ->
  getitem t (i + 1) = Ok (Fin t2) ->
  (x0 = x1 \/ x0 = x2 \/ x1 = x2 ->
   exists hx,
     nonfinite hx /\ highest t yint i = Ok (Line NaN NaN (Fin 0) NaN hx)) /\
  (y0 = y1 \/ y0 = y2 \/ y1 = y2 ->
   impact t yint (i + 1) = Ok (Line NaN NaN NaN (Fin 0) NaN)).
Proof.
  intros Y0 Y1 Y2 T0 T1 T2. split; intros H.
  - apply (highest_degenerate t yint i v0 u0 x0 y0 v1 u1 x1 y1 v2 u2 x2 y2
             (Fin t0) (Fin t1) (Fin t2)); assumption.
  - apply (impact_degenerate t yint (i + 1) v0 u0 x0 y0 v1 u1 x1 y1 v2 u2 x2 y2
             t0 t1 t2); try assumption.
    + replace (i + 1 - 2)%Z with (i - 1)%Z by lia. exact Y0.
    + replace (i + 1 - 1)%Z with i by lia. exact Y1.
    + replace (i + 1 - 2)%Z with (i - 1)%Z by lia. exact T0.
    + replace (i + 1 - 1)%Z with i by lia. exact T1.
Qed.

Lemma coinciding_abscissas_nonfinite_witness :
  (0 = 0 \/ 0 = 0 \/ 0 = 0 ->
   exists hx,
     nonfinite hx /\
     highest vertical_t vertical_yint 1 = Ok (Line NaN NaN (Fin 0) NaN hx)) /\
  (0 = 2 \/ 0 = 2 \/ 2 = 2 ->
   impact vertical_t vertical_yint (1 + 1) = Ok (Line NaN NaN NaN (Fin 0) NaN)).
Proof.
  apply (coinciding_abscissas_nonfinite vertical_t vertical_yint 1
           0 2 0 0 0 1 0 2 0 (-1) 0 2 0 1 2); reflexivity.
Defined.

(** ** Further properties of the equation of motion *)

Lemma derv_fin (tv vx vy x y : R) (t : float) :
  tv <> 0 -> (vx, vy) <> (0, 0) ->
  derv (Fin tv) (Row (Fin vx) (Fin vy) (Fin x) (Fin y)) t =
  Row (Fin (- (980665 / 100000 / tv ^ 2 * sqrt (vx ^ 2 + vy ^ 2) * vx)))
      (Fin (- (980665 / 100000)
            - 980665 / 100000 / tv ^ 2 * sqrt (vx ^ 2 + vy ^ 2) * vy))
      (Fin vx) (Fin vy).
Proof.
  intros Htv Hv. pose proof (speed_pos vx vy Hv) as Hs.
  unfold derv, norm, vg. cbn [col0 col1 fst snd].
  rewrite speed_fin, dc_fin by exact Htv.
  rewrite !fdiv_fin by lra. unfold gc, fsqr. cbn [fneg fmul fadd].
  f_equal; f_equal; field; split; lra.
Qed.

(** While the vertical velocity is not negative the vertical acceleration
    is at most [-g]: along [derv] the vertical velocity does not turn from
    negative to positive, and a table integrated from it changes sign at
    most once. *)
Lemma derv_ascent_decelerates (tv vx vy x y : R) (t : float) :
  tv <> 0 -> (vx, vy) <> (0, 0) -> 0 <= vy ->
  exists ay : R,
    col1 (derv (Fin tv) (Row (Fin vx) (Fin vy) (Fin x) (Fin y)) t) = Fin ay /\
    ay <= - (980665 / 100000).
Proof.
  intros Htv Hv Hvy. pose proof (speed_pos vx vy Hv) as Hs.
  rewrite derv_fin by assumption. cbn [col1].
  eexists. split; [reflexivity |].
  assert (Hk : 0 < 980665 / 100000 / tv ^ 2).
  { apply Rdiv_lt_0_compat; [lra | nra]. }
  assert (0 <= 980665 / 100000 / tv ^ 2 * sqrt (vx ^ 2 + vy ^ 2) * vy).
  { apply Rmult_le_pos; [| exact Hvy]. apply Rmult_le_pos; lra. }
  lra.
Qed.

(** X1.  At rest the unit velocity vector is [0/0]: both accelerations are
    NaN, whatever the terminal velocity, the position and the time. *)
Theorem derv_at_rest (tv : R) (x y t : float) :
  tv <> 0 ->
  derv (Fin tv) (Row (Fin 0) (Fin 0) x y) t = Row NaN NaN (Fin 0) (Fin 0).
Proof.
  intros _. unfold derv, norm. cbn [col0 col1 fst snd].
  rewrite speed_fin.
  replace (0 ^ 2 + 0 ^ 2) with 0 by ring. rewrite sqrt_0.
  rewrite fdiv_zero, Rsgn_zero. cbn [inf_of].
  assert (E : forall a, a [*] NaN = NaN) by (intros [r | | |]; reflexivity).
  rewrite E. unfold vg. cbn [fst snd]. unfold gc. reflexivity.
Qed.

Lemma derv_at_rest_witness :
  derv (Fin 150) (Row (Fin 0) (Fin 0) (Fin 0) (Fin 0)) (Fin 0) =
  Row NaN NaN (Fin 0) (Fin 0).
Proof.
  apply (derv_at_rest 150 (Fin 0) (Fin 0) (Fin 0)). lra.
Defined.

(** X2.  A vertical fall at the speed [s]: the horizontal acceleration is zero
    and the vertical one is [g * (s^2 / tv^2 - 1)]; it vanishes at the
    terminal velocity, points downward below it and upward above it. *)
Theorem derv_vertical_fall (tv s x y : R) (t : float) :
  0 < tv -> 0 < s ->
  derv (Fin tv) (Row (Fin 0) (Fin (- s)) (Fin x) (Fin y)) t =
    Row (Fin 0) (Fin (980665 / 100000 * (s ^ 2 / tv ^ 2 - 1))) (Fin 0) (Fin (- s)) /\
  (s = tv -> 980665 / 100000 * (s ^ 2 / tv ^ 2 - 1) = 0) /\
  (s < tv -> 980665 / 100000 * (s ^ 2 / tv ^ 2 - 1) < 0) /\
  (tv < s -> 0 < 980665 / 100000 * (s ^ 2 / tv ^ 2 - 1)).
Proof.
  intros Htv Hs.
  assert (Hq : sqrt (0 ^ 2 + (- s) ^ 2) = s).
  { replace (0 ^ 2 + (- s) ^ 2) with (s ^ 2) by ring. apply sqrt_pow2. lra. }
  split.
  - rewrite derv_fin; [| lra | intros H; injection H as H; lra].
    rewrite Hq. f_equal; f_equal; field; lra.
  - assert (Ht2 : 0 < tv ^ 2) by nra.
    assert (Hd : s ^ 2 / tv ^ 2 - 1 = (s - tv) * (s + tv) / tv ^ 2) by (field; lra).
    rewrite Hd. split; [| split]; intros H.
    + subst s. unfold Rdiv. ring.
    + apply Ropp_lt_cancel. rewrite Ropp_0.
      replace (- (980665 / 100000 * ((s - tv) * (s + tv) / tv ^ 2)))
        with (980665 / 100000 * ((tv - s) * (s + tv)) / tv ^ 2) by (field; lra).
      apply Rdiv_lt_0_compat; [| exact Ht2]. nra.
    + replace (980665 / 100000 * ((s - tv) * (s + tv) / tv ^ 2))
        with (980665 / 100000 * ((s - tv) * (s + tv)) / tv ^ 2) by (field; lra).
      apply Rdiv_lt_0_compat; [| exact Ht2]. nra.
Qed.

Lemma derv_vertical_fall_witness :
  derv (Fin 150) (Row (Fin 0) (Fin (- 150)) (Fin 0) (Fin 10)) (Fin 0) =
    Row (Fin 0) (Fin (980665 / 100000 * (150 ^ 2 / 150 ^ 2 - 1))) (Fin 0) (Fin (- 150)) /\
  (150 = 150 -> 980665 / 100000 * (150 ^ 2 / 150 ^ 2 - 1) = 0) /\
  (150 < 150 -> 980665 / 100000 * (150 ^ 2 / 150 ^ 2 - 1) < 0) /\
  (150 < 150 -> 0 < 980665 / 100000 * (150 ^ 2 / 150 ^ 2 - 1)).
Proof.
  apply (derv_vertical_fall 150 150 0 10 (Fin 0)); lra.
Defined.

(** ** Further properties of the table loop *)

Lemma first_below_dec (yint : list row) (b : nat) :
  (exists n, (n < b)%nat /\ below_ground yint n = true /\
             forall i, (i < n)%nat -> below_ground yint i = false) \/
  (forall i, (i < b)%nat -> below_ground yint i = false).
Proof.
  induction b as [| b [(n & Hn & Hb & Hf) | Hall]].
  - right. intros i Hi. lia.
  - left. exists n. repeat split; [lia | exact Hb | exact Hf].
  - destruct (below_ground yint b) eqn:E.
    + left. exists b. repeat split; [lia | exact E | exact Hall].
    + right. intros i Hi. destruct (Nat.eq_dec i b) as [-> | Hne];
        [exact E | apply Hall; lia].
Qed.

(** What the loop has done when it returns: it stopped at the first line
    of negative altitude, which is not the last line, and printed the lines
    before it. *)
Lemma table_complete (t : list float) (yint : list row)
    (n m : Z) (out : list line) :
  length t = length yint -> yint <> [] ->
  table t yint = Ok (n, m, out) ->
  exists n' : nat,
    n = Z.of_nat n' /\ (n' + 1 < length yint)%nat /\
    (forall i, (i < n')%nat -> below_ground yint i = false) /\
    below_ground yint n' = true /\
    m = m_after yint 0 n' 0 /\ out = lines_from t yint 0 n'.
Proof.
  intros HL Hne HT.
  destruct (first_below_dec yint (length yint - 1)) as [(n' & Hn & Hb & Hf) | Hall].
  - rewrite (table_break t yint n') in HT; try assumption; try lia.
    injection HT as <- <- <-. exists n'. repeat split; try assumption. lia.
  - rewrite table_exhaust in HT; [discriminate | exact Hne |].
    intros i Hi. apply Hall. lia.
Qed.

Lemma lines_from_nth (t : list float) (yint : list row) (n k : nat) (l : line) :
  nth_error (lines_from t yint 0 n) k = Some l ->
  (k < n)%nat /\ l = line_of t yint k.
Proof.
  unfold lines_from. intros H.
  assert (Hk : (k < n)%nat).
  { assert (Hs : nth_error (map (line_of t yint) (seq 0 n)) k <> None) by congruence.
    apply nth_error_Some in Hs. rewrite length_map, length_seq in Hs. exact Hs. }
  split; [exact Hk |].
  rewrite nth_error_map, nth_error_seq in H.
  replace (k <? n)%nat with true in H by (symmetry; apply Nat.ltb_lt; exact Hk).
  simpl in H. congruence.
Qed.

Lemma m_after_range (yint : list row) :
  forall (j k : nat) (m : Z),
    (0 <= m <= Z.of_nat (k + j))%Z ->
    (0 <= m_after yint k j m <= Z.of_nat (k + j))%Z.
Proof.
  induction j as [| j IH]; intros k m Hm; simpl.
  - destruct (sign_change yint k); lia.
  - replace (k + S j)%nat with (S k + j)%nat in * by lia.
    apply IH. destruct (sign_change yint k); lia.
Qed.

(** X10.  The run ends in the index error exactly when no line other than
    the last has a negative altitude.  Otherwise every index is in range:
    the run returns a report, unless the apex fit is constant and line 74
    raises the [ZeroDivisionError]. *)
Theorem BalTrj_index_error_iff (t : list float) (yint : list row) :
  length t = length yint ->
  (BalTrj t yint = Raise IndexError <->
   ~ (exists k, (k + 1 < length yint)%nat /\ below_ground yint k = true)) /\
  ((exists k, (k + 1 < length yint)%nat /\ below_ground yint k = true) ->
   (exists r, BalTrj t yint = Ok r) \/ BalTrj t yint = Raise ZeroDivisionError).
Proof.
  intros HL.
  assert (Hsome : (exists k, (k + 1 < length yint)%nat /\ below_ground yint k = true) ->
                  (exists r, BalTrj t yint = Ok r) \/
                  BalTrj t yint = Raise ZeroDivisionError).
  { intros (k & Hk & Hb).
    destruct (first_below_dec yint (length yint - 1)) as [(n & Hn & Hbn & Hf) | Hall].
    - assert (HT := table_break t yint n ltac:(lia) ltac:(lia) Hf Hbn).
      pose proof (m_after_range yint n 0 0%Z ltac:(lia)) as Hr.
      destruct (BalTrj_after_table t yint _ _ _ HL HT) as (i & _ & HB);
        try lia.
      destruct HB as [(h & _ & HB) | (_ & HB)];
        [left; eexists; exact HB | right; exact HB].
    - rewrite Hall in Hb by lia. discriminate. }
  split; [split |].
  - intros HI Hex. destruct (Hsome Hex) as [[r Hr] | Hz]; congruence.
  - intros Hno. apply BalTrj_no_negative_altitude.
    intros i Hi. destruct (below_ground yint i) eqn:E; [| reflexivity].
    exfalso. apply Hno. exists i. split; assumption.
  - exact Hsome.
Qed.

Lemma BalTrj_index_error_iff_witness :
  (BalTrj hover_t hover_yint = Raise IndexError <->
   ~ (exists k, (k + 1 < length hover_yint)%nat /\ below_ground hover_yint k = true)) /\
  ((exists k, (k + 1 < length hover_yint)%nat /\ below_ground hover_yint k = true) ->
   (exists r, BalTrj hover_t hover_yint = Ok r) \/
   BalTrj hover_t hover_yint = Raise ZeroDivisionError).
Proof.
  apply (BalTrj_index_error_iff hover_t hover_yint). reflexivity.
Defined.

Lemma BalTrj_inv (t : list float) (yint : list row) (r : report) :
  BalTrj t yint = Ok r ->
  exists n m h i,
    table t yint = Ok (n, m, rows_out r) /\
    highest t yint m = Ok h /\ impact t yint n = Ok i /\
    r = Report (rows_out r) h i.
Proof.
  unfold BalTrj. intros H.
  destruct (table t yint) as [[[n m] out] | e]; [| discriminate].
  rewrite bind_Ok in H.
  destruct (highest t yint m) as [h | e] eqn:Eh; [| discriminate].
  rewrite bind_Ok in H.
  destruct (impact t yint n) as [i | e] eqn:Ei; [| discriminate].
  rewrite bind_Ok in H. apply Ok_inj in H. subst r.
  exists n, m, h, i. cbn [rows_out]. auto.
Qed.

Lemma highest_angle (t : list float) (yint : list row) (m : Z) (h : line) :
  highest t yint m = Ok h -> l_angle h = Fin 0.
Proof.
  unfold highest, cells3, times3, getcell. intros H.
  repeat match type of H with
         | context [getitem ?l ?i] =>
             destruct (getitem l i); rewrite ?bind_Ok in H; [| discriminate]
         end.
  cbv zeta in H. destruct (py_div _ _) as [q | e]; [| discriminate].
  rewrite bind_Ok in H. apply Ok_inj in H. subst h. reflexivity.
Qed.

Lemma impact_height (t : list float) (yint : list row) (n : Z) (i : line) :
  impact t yint n = Ok i -> l_height i = Fin 0.
Proof.
  unfold impact, cells3, times3, getcell. intros H.
  repeat match type of H with
         | context [getitem ?l ?i] =>
             destruct (getitem l i); rewrite ?bind_Ok in H; [| discriminate]
         end.
  apply Ok_inj in H. subst i. reflexivity.
Qed.

(** X11.  A run that returns has printed exactly the lines before the first line
    of negative altitude, each with the time, the altitude and the distance
    of its sample; at least two lines of the table are not printed; the
    highest point has the angle [0] and the impact point the height [0]. *)
Theorem BalTrj_report_invariants (t : list float) (yint : list row) (r : report) :
  length t = length yint ->
  BalTrj t yint = Ok r ->
  (length (rows_out r) + 1 < length yint)%nat /\
  below_ground yint (length (rows_out r)) = true /\
  (forall k, (k < length (rows_out r))%nat -> below_ground yint k = false) /\
  (forall k l, nth_error (rows_out r) k = Some l ->
     exists x tk,
       nth_error yint k = Some x /\ nth_error t k = Some tk /\
       l_time l = tk /\ l_height l = col3 x /\ l_dist l = col2 x) /\
  l_angle (high_out r) = Fin 0 /\
  l_height (impact_out r) = Fin 0.
Proof.
  intros HL HB.
  destruct (BalTrj_inv _ _ _ HB) as (n & m & h & i & HT & Hh & Hi & Er).
  assert (Hne : yint <> []).
  { intros ->. rewrite (BalTrj_no_negative_altitude t []) in HB; [discriminate |].
    intros k Hk. simpl in Hk. lia. }
  destruct (table_complete _ _ _ _ _ HL Hne HT) as (n' & -> & HN & Hf & Hb & _ & Eo).
  assert (Hlen : length (rows_out r) = n').
  { rewrite Eo. unfold lines_from. rewrite length_map, length_seq. reflexivity. }
  rewrite Hlen. split; [exact HN |]. split; [exact Hb |]. split; [exact Hf |].
  split; [| split].
  - intros k l Hk. rewrite Eo in Hk.
    destruct (lines_from_nth _ _ _ _ _ Hk) as [Hkn ->].
    destruct (nth_error_some_lt yint k) as [x Hx]; [lia |].
    destruct (nth_error_some_lt t k) as [tk Htk]; [lia |].
    exists x, tk. rewrite (line_of_eq _ _ _ _ _ Hx Htk). repeat split; assumption.
  - rewrite Er. cbn [high_out]. apply (highest_angle _ _ _ _ Hh).
  - rewrite Er. cbn [impact_out]. apply (impact_height _ _ _ _ Hi).
Qed.

Lemma flight_table :
  table flight_t flight_yint = Ok (3%Z, 1%Z, lines_from flight_t flight_yint 0 3).
Proof.
  rewrite (table_break _ _ 3).
  - rewrite (m_after_last flight_yint 3 0 0%Z 1); [reflexivity | lia | |].
    + unfold sign_change, flight_yint; cbn [nth_error col1]; float_lt.
    + intros i Hi. assert (Hc : i = 2%nat \/ i = 3%nat) by lia.
      destruct Hc as [-> | ->];
        unfold sign_change, flight_yint; cbn [nth_error col1]; float_lt.
  - simpl. lia.
  - simpl. lia.
  - intros i Hi. destruct i as [| [| [| i]]]; try lia;
      unfold below_ground, flight_yint; cbn [nth_error col3]; float_lt.
  - unfold below_ground, flight_yint; cbn [nth_error col3]; float_lt.
Qed.

Lemma flight_BalTrj :
  exists h i,
    BalTrj flight_t flight_yint = Ok (Report (lines_from flight_t flight_yint 0 3) h i).
Proof.
  destruct (impact_total flight_t flight_yint 3 eq_refl) as [i Hi];
    [simpl; lia | simpl; lia |].
  destruct (highest_fit flight_t flight_yint 1 1 2 0 0 1 1 1 2 1 (-1) 2 1 0 1 2)
    as (a & b & c & at' & bt & ct & av & bv & cv & Fy & _ & _ & E & _);
    try reflexivity; try lra.
  unfold fits, quadR in Fy. simpl pow in Fy.
  assert (Ha : a <> 0) by lra.
  eexists. exists i. exact (BalTrj_report _ _ _ _ _ _ _ flight_table (E Ha) Hi).
Qed.

Lemma BalTrj_report_invariants_witness :
  exists r,
    BalTrj flight_t flight_yint = Ok r /\
    (length (rows_out r) + 1 < length flight_yint)%nat /\
    below_ground flight_yint (length (rows_out r)) = true /\
    (forall k, (k < length (rows_out r))%nat -> below_ground flight_yint k = false) /\
    (forall k l, nth_error (rows_out r) k = Some l ->
       exists x tk,
         nth_error flight_yint k = Some x /\ nth_error flight_t k = Some tk /\
         l_time l = tk /\ l_height l = col3 x /\ l_dist l = col2 x) /\
    l_angle (high_out r) = Fin 0 /\
    l_height (impact_out r) = Fin 0.
Proof.
  destruct flight_BalTrj as (h & i & HB).
  exists (Report (lines_from flight_t flight_yint 0 3) h i).
  split; [exact HB |].
  apply (BalTrj_report_invariants flight_t flight_yint _ eq_refl HB).
Defined.

(** The printed line of a sample, as the loop computes it. *)
Lemma table_line (t : list float) (yint : list row) (n m : Z) (out : list line)
    (k : nat) (l : line) (x : row) :
  length t = length yint ->
  table t yint = Ok (n, m, out) ->
  nth_error out k = Some l -> nth_error yint k = Some x ->
  (Z.of_nat k < n)%Z /\
  l = Line (nth k t NaN) (fsqrt (fsqr (col0 x) [+] fsqr (col1 x)))
        (degrees (arctan (col1 x [/] col0 x))) (col3 x) (col2 x).
Proof.
  intros HL HT Hl Hx.
  assert (Hne : yint <> []) by (intros ->; destruct k; discriminate).
  destruct (table_complete _ _ _ _ _ HL Hne HT) as (n' & -> & _ & _ & _ & _ & ->).
  destruct (lines_from_nth _ _ _ _ _ Hl) as [Hk ->].
  split; [lia |]. unfold line_of. rewrite (nth_error_nth _ _ _ Hx). reflexivity.
Qed.

Lemma degrees_atan_bound (q : R) : -90 < atan q * (180 / PI) < 90.
Proof.
  pose proof (atan_bound q) as [Hlo Hhi]. pose proof PI_RGT_0 as HPI.
  assert (Hk : 0 < 180 / PI) by (apply Rdiv_lt_0_compat; lra).
  pose proof degrees_half_PI as E.
  split.
  - replace (-90) with (- (PI / 2) * (180 / PI)) by lra.
    apply Rmult_lt_compat_r; [exact Hk | lra].
  - rewrite <- E. apply Rmult_lt_compat_r; assumption.
Qed.

(** X8.  The angle of a printed line, for a finite sample: strictly between
    [-90] and [90] degrees when the horizontal velocity is not zero, [90]
    or [-90] with the sign of the vertical velocity when it is zero, and
    NaN when both velocities are zero.  The printed velocity is the norm. *)
Theorem table_line_angle_range (t : list float) (yint : list row)
    (n m : Z) (out : list line) (k : nat) (l : line) (vx vy : R) (x y : float) :
  length t = length yint ->
  table t yint = Ok (n, m, out) ->
  nth_error out k = Some l ->
  nth_error yint k = Some (Row (Fin vx) (Fin vy) x y) ->
  l_vel l = Fin (sqrt (vx ^ 2 + vy ^ 2)) /\
  (vx <> 0 -> exists a, l_angle l = Fin a /\ -90 < a < 90) /\
  (vx = 0 -> 0 < vy -> l_angle l = Fin 90) /\
  (vx = 0 -> vy < 0 -> l_angle l = Fin (-90)) /\
  (vx = 0 -> vy = 0 -> l_angle l = NaN).
Proof.
  intros HL HT Hl Hx.
  destruct (table_line _ _ _ _ _ _ _ _ HL HT Hl Hx) as [_ ->].
  cbn [l_vel l_angle col0 col1]. split; [apply speed_fin |].
  split; [| split; [| split]].
  - intros H. rewrite fdiv_fin by exact H.
    eexists. split; [reflexivity |]. apply degrees_atan_bound.
  - intros -> H. rewrite fdiv_zero, Rsgn_pos by exact H.
    unfold degrees. cbn [inf_of arctan fmul]. f_equal. apply degrees_half_PI.
  - intros -> H. rewrite fdiv_zero, Rsgn_neg by exact H.
    unfold degrees. cbn [inf_of arctan fmul]. f_equal.
    pose proof degrees_half_PI. lra.
  - intros -> ->. rewrite fdiv_zero, Rsgn_zero. reflexivity.
Qed.

Lemma table_line_angle_range_witness :
  l_vel (line_of flight_t flight_yint 2) = Fin (sqrt (1 ^ 2 + (-1) ^ 2)) /\
  (1 <> 0 -> exists a, l_angle (line_of flight_t flight_yint 2) = Fin a /\ -90 < a < 90) /\
  (1 = 0 -> 0 < -1 -> l_angle (line_of flight_t flight_yint 2) = Fin 90) /\
  (1 = 0 -> -1 < 0 -> l_angle (line_of flight_t flight_yint 2) = Fin (-90)) /\
  (1 = 0 -> -1 = 0 -> l_angle (line_of flight_t flight_yint 2) = NaN).
Proof.
  apply (table_line_angle_range flight_t flight_yint 3 1
           (lines_from flight_t flight_yint 0 3) 2 _ 1 (-1) (Fin 2) (Fin 1)).
  - reflexivity.
  - exact flight_table.
  - reflexivity.
  - reflexivity.
Defined.

Lemma polar_atan (vx vy : R) :
  vx <> 0 ->
  sqrt (vx ^ 2 + vy ^ 2) * cos (atan (vy / vx)) = Rabs vx /\
  sqrt (vx ^ 2 + vy ^ 2) * sin (atan (vy / vx)) = Rabs vx * (vy / vx).
Proof.
  intros H. rewrite cos_atan, sin_atan.
  assert (Hp : 0 < 1 + (vy / vx)²) by (unfold Rsqr; nra).
  assert (Hs : 0 < sqrt (1 + (vy / vx)²)) by (apply sqrt_lt_R0; exact Hp).
  assert (E : sqrt (vx ^ 2 + vy ^ 2) = Rabs vx * sqrt (1 + (vy / vx)²)).
  { rewrite <- sqrt_Rsqr_abs, <- sqrt_mult; [| apply Rle_0_sqr | lra].
    f_equal. unfold Rsqr. field. exact H. }
  rewrite E. split; field; lra.
Qed.

(** X9.  The printed velocity and angle of a finite sample give its velocity
    components back when the horizontal velocity is positive, and their
    opposites when it is negative. *)
Theorem table_line_polar (t : list float) (yint : list row)
    (n m : Z) (out : list line) (k : nat) (l : line) (vx vy : R) (x y : float) :
  length t = length yint ->
  table t yint = Ok (n, m, out) ->
  nth_error out k = Some l ->
  nth_error yint k = Some (Row (Fin vx) (Fin vy) x y) ->
  vx <> 0 ->
  exists v a,
    l_vel l = Fin v /\ l_angle l = Fin a /\
    (0 < vx -> v * cos (a * (PI / 180)) = vx /\ v * sin (a * (PI / 180)) = vy) /\
    (vx < 0 -> v * cos (a * (PI / 180)) = - vx /\ v * sin (a * (PI / 180)) = - vy).
Proof.
  intros HL HT Hl Hx Hvx.
  destruct (table_line _ _ _ _ _ _ _ _ HL HT Hl Hx) as [_ ->].
  cbn [l_vel l_angle col0 col1]. rewrite speed_fin, fdiv_fin by exact Hvx.
  eexists _, _. split; [reflexivity |]. split; [reflexivity |].
  assert (Ea : atan (vy / vx) * (180 / PI) * (PI / 180) = atan (vy / vx))
    by (field; apply PI_neq0).
  rewrite Ea. destruct (polar_atan vx vy Hvx) as [Hc Hs]. rewrite Hc, Hs.
  split; intros H.
  - rewrite Rabs_pos_eq by lra. split; [reflexivity | field; lra].
  - rewrite Rabs_left by exact H. split; [reflexivity | field; lra].
Qed.

Lemma table_line_polar_witness :
  exists v a,
    l_vel (line_of flight_t flight_yint 2) = Fin v /\
    l_angle (line_of flight_t flight_yint 2) = Fin a /\
    (0 < 1 -> v * cos (a * (PI / 180)) = 1 /\ v * sin (a * (PI / 180)) = -1) /\
    (1 < 0 -> v * cos (a * (PI / 180)) = - 1 /\ v * sin (a * (PI / 180)) = - -1).
Proof.
  apply (table_line_polar flight_t flight_yint 3 1
           (lines_from flight_t flight_yint 0 3) 2 _ 1 (-1) (Fin 2) (Fin 1)).
  - reflexivity.
  - exact flight_table.
  - reflexivity.
  - reflexivity.
  - lra.
Defined.

Lemma radians_bound (ad : R) :
  -90 < ad < 90 -> - (PI / 2) < ad * (PI / 180) < PI / 2.
Proof.
  intros [Hlo Hhi]. pose proof PI_RGT_0 as HPI.
  assert (Hk : 0 < PI / 180) by (apply Rdiv_lt_0_compat; lra).
  split.
  - replace (- (PI / 2)) with (-90 * (PI / 180)) by field.
    apply Rmult_lt_compat_r; assumption.
  - replace (PI / 2) with (90 * (PI / 180)) by field.
    apply Rmult_lt_compat_r; assumption.
Qed.

(** X7.  When the table starts in the launch state and at the time [0], and at
    least one line is printed, the first printed line shows the time [0],
    the absolute value of the launch velocity, the launch angle itself, and
    the height and distance [0], for a launch angle strictly between [-90]
    and [90] degrees and a nonzero launch velocity. *)
Theorem first_line_is_launch (t : list float) (yint : list row)
    (n m : Z) (out : list line) (vel ad : R) :
  length t = length yint ->
  table t yint = Ok (n, m, out) ->
  (0 < n)%Z ->
  nth_error yint 0 = Some (y0 (Fin vel) (Fin ad)) ->
  nth_error t 0 = Some (Fin 0) ->
  vel <> 0 -> -90 < ad < 90 ->
  nth_error out 0 = Some (Line (Fin 0) (Fin (Rabs vel)) (Fin ad) (Fin 0) (Fin 0)).
Proof.
  intros HL HT Hn Hx Ht Hvel Had.
  assert (Hne : yint <> []) by (intros ->; discriminate).
  destruct (table_complete _ _ _ _ _ HL Hne HT) as (n' & -> & _ & _ & _ & _ & ->).
  unfold lines_from. rewrite nth_error_map, nth_error_seq.
  replace (0 <? n')%nat with true by (symmetry; apply Nat.ltb_lt; lia).
  cbn [option_map Nat.add]. f_equal.
  rewrite (line_of_eq _ _ _ _ _ Hx Ht).
  pose proof (radians_bound ad Had) as Hr.
  assert (Hc : 0 < cos (ad * (PI / 180))) by (apply cos_gt_0; lra).
  unfold y0, vx0, vy0, ar, radians. cbn [col0 col1 col2 col3 fmul np_cos np_sin].
  rewrite speed_fin, fdiv_fin by nra.
  unfold degrees. cbn [arctan fmul]. f_equal.
  - f_equal.
    replace ((vel * cos (ad * (PI / 180))) ^ 2 + (vel * sin (ad * (PI / 180))) ^ 2)
      with (Rsqr vel * (Rsqr (sin (ad * (PI / 180))) + Rsqr (cos (ad * (PI / 180)))))
      by (unfold Rsqr; ring).
    rewrite sin2_cos2, Rmult_1_r. apply sqrt_Rsqr_abs.
  - f_equal.
    replace (vel * sin (ad * (PI / 180)) / (vel * cos (ad * (PI / 180))))
      with (tan (ad * (PI / 180))) by (unfold tan; field; lra).
    rewrite atan_tan by exact Hr. field. apply PI_neq0.
Qed.

Lemma launch_table :
  table launch_t launch_yint = Ok (1%Z, 0%Z, lines_from launch_t launch_yint 0 1).
Proof.
  assert (H1 : below_ground launch_yint 1 = true)
    by (unfold below_ground, launch_yint; cbn [nth_error col3]; float_lt).
  assert (H0 : below_ground launch_yint 0 = false)
    by (unfold below_ground, launch_yint; cbn [nth_error col3 y0]; float_lt).
  rewrite (table_break _ _ 1); [| simpl; lia | simpl; lia | | exact H1].
  - cbn [m_after].
    assert (S0 : sign_change launch_yint 0 = false).
    { unfold sign_change, launch_yint, y0, vy0, ar, radians.
      cbn [nth_error col1 np_sin fmul]. apply fltb_fin_not.
      replace (0 * (PI / 180)) with 0 by ring. rewrite sin_0. lra. }
    assert (S1 : sign_change launch_yint 1 = false)
      by (unfold sign_change, launch_yint; cbn [nth_error col1]; float_lt).
    rewrite S0, S1. reflexivity.
  - intros i Hi. assert (i = 0%nat) by lia. subst i. exact H0.
Qed.

Lemma first_line_is_launch_witness :
  nth_error (lines_from launch_t launch_yint 0 1) 0 =
  Some (Line (Fin 0) (Fin (Rabs 1)) (Fin 0) (Fin 0) (Fin 0)).
Proof.
  apply (first_line_is_launch launch_t launch_yint 1 0 _ 1 0).
  - reflexivity.
  - exact launch_table.
  - lia.
  - reflexivity.
  - reflexivity.
  - lra.
  - lra.
Defined.

(** X13.  The sign test is strict: when the vertical velocity is positive before
    a line [k], exactly zero on it and negative after it, no line shows a
    sign change and the loop leaves [m = 0]. *)
Theorem zero_velocity_sample_not_detected (t : list float) (yint : list row)
    (n k : nat) (vy : nat -> R) :
  length t = length yint ->
  (n + 1 < length yint)%nat ->
  (forall i, (i < n)%nat -> below_ground yint i = false) ->
  below_ground yint n = true ->
  (forall i, (i <= n + 1)%nat ->
     exists x, nth_error yint i = Some x /\ col1 x = Fin (vy i)) ->
  (forall i, (i < k)%nat -> 0 < vy i) ->
  vy k = 0 ->
  (forall i, (k < i)%nat -> vy i < 0) ->
  table t yint = Ok (Z.of_nat n, 0%Z, lines_from t yint 0 n).
Proof.
  intros HL HN Hf Hb Hrows Hup Hk Hdown.
  rewrite (table_break _ _ n) by (try assumption; lia).
  rewrite m_after_none; [reflexivity |].
  intros i Hi.
  destruct (Hrows i) as (a & Ha & Ea); [lia |].
  destruct (Hrows (S i)) as (b & Hb' & Eb); [lia |].
  unfold sign_change. rewrite Ha, Hb', Ea, Eb. cbn [fmul].
  apply fltb_fin_not.
  destruct (Nat.lt_trichotomy (S i) k) as [Hlt | [Heq | Hgt]].
  - pose proof (Hup i ltac:(lia)). pose proof (Hup (S i) Hlt). nra.
  - rewrite Heq, Hk. lra.
  - destruct (Nat.eq_dec i k) as [-> | Hne].
    + rewrite Hk. lra.
    + pose proof (Hdown i ltac:(lia)). pose proof (Hdown (S i) ltac:(lia)). nra.
Qed.

Lemma zero_velocity_sample_not_detected_witness :
  table summit_t summit_yint = Ok (Z.of_nat 3, 0%Z, lines_from summit_t summit_yint 0 3).
Proof.
  apply (zero_velocity_sample_not_detected summit_t summit_yint 3 1
           (fun i => match i with 0%nat => 1 | 1%nat => 0 | _ => -1 end)).
  - reflexivity.
  - simpl. lia.
  - intros i Hi. destruct i as [| [| [| i]]]; try lia;
      unfold below_ground, summit_yint; cbn [nth_error col3]; float_lt.
  - unfold below_ground, summit_yint; cbn [nth_error col3]; float_lt.
  - intros i Hi. destruct i as [| [| [| [| [| i]]]]]; try lia;
      eexists; split; reflexivity.
  - intros i Hi. assert (i = 0%nat) by lia. subst i. lra.
  - reflexivity.
  - intros i Hi. destruct i as [| [| i]]; try lia. lra.
Defined.

(** ** The time grid *)

Lemma set_last_snoc (l : list R) (a v : R) : set_last (l ++ [a]) v = l ++ [v].
Proof.
  unfold set_last. rewrite removelast_last.
  destruct (l ++ [a]) eqn:E; [destruct l; discriminate | reflexivity].
Qed.

Lemma linspace_eq (start stop : R) (num : Z) :
  (2 <= num)%Z ->
  linspace start stop num =
  Some (map (fun k => Fin (start + INR k * ((stop - start) / IZR (num - 1))))
          (seq 0 (Z.to_nat num))).
Proof.
  intros Hnum. unfold linspace.
  replace (num <? 0)%Z with false by lia.
  replace (1 <? num)%Z with true by lia.
  set (step := (stop - start) / IZR (num - 1)).
  assert (Hdiv : IZR (num - 1) <> 0) by (apply not_0_IZR; lia).
  assert (Ey : map (fun a => a + start)
                 (if Req_dec_T step 0
                  then map (fun a => a / IZR (num - 1) * (stop - start))
                         (map INR (seq 0 (Z.to_nat num)))
                  else map (fun a => a * step) (map INR (seq 0 (Z.to_nat num)))) =
               map (fun k => start + INR k * step) (seq 0 (Z.to_nat num))).
  { destruct (Req_dec_T step 0); rewrite !map_map; apply map_ext; intros k;
      unfold step; field; exact Hdiv. }
  rewrite Ey.
  destruct (Z.to_nat num) as [| n'] eqn:En; [lia |].
  rewrite seq_S, map_app. cbn [map]. rewrite set_last_snoc.
  rewrite !map_app, map_map. cbn [map Nat.add]. f_equal. f_equal. f_equal. f_equal.
  rewrite INR_IZR_INZ. replace (Z.of_nat n') with (num - 1)%Z by lia.
  unfold step. field. exact Hdiv.
Qed.

Lemma flight_table_any (t : list float) :
  (3 <= length t)%nat ->
  table t flight_yint = Ok (3%Z, 1%Z, lines_from t flight_yint 0 3).
Proof.
  intros Ht. rewrite (table_break _ _ 3).
  - rewrite (m_after_last flight_yint 3 0 0%Z 1); [reflexivity | lia | |].
    + unfold sign_change, flight_yint; cbn [nth_error col1]; float_lt.
    + intros i Hi. assert (Hc : i = 2%nat \/ i = 3%nat) by lia.
      destruct Hc as [-> | ->];
        unfold sign_change, flight_yint; cbn [nth_error col1]; float_lt.
  - simpl. lia.
  - exact Ht.
  - intros i Hi. destruct i as [| [| [| i]]]; try lia;
      unfold below_ground, flight_yint; cbn [nth_error col3]; float_lt.
  - unfold below_ground, flight_yint; cbn [nth_error col3]; float_lt.
Qed.

(** X6.  On a grid [np.linspace(0, tli, num)] of [num >= 2] samples over a
    positive duration the times of the printed lines are the multiples
    [k * step] of the spacing [step = tli / (num - 1)]: they start at [0],
    increase strictly from line to line and stay below the duration. *)
Theorem printed_times_increasing (tli : R) (num : Z) (t : list float)
    (yint : list row) (n m : Z) (out : list line) :
  0 < tli -> (2 <= num)%Z ->
  linspace 0 tli num = Some t ->
  length t = length yint ->
  table t yint = Ok (n, m, out) ->
  let step := tli / IZR (num - 1) in
  0 < step /\
  forall i li, nth_error out i = Some li ->
    l_time li = Fin (INR i * step) /\ INR i * step < tli /\
    forall j lj, (i < j)%nat -> nth_error out j = Some lj ->
      l_time lj = Fin (INR j * step) /\ INR i * step < INR j * step.
Proof.
  intros Htli Hnum Hg HL HT step.
  assert (Hd : 0 < IZR (num - 1)) by (apply IZR_lt; lia).
  assert (Hpos : 0 < step) by (apply Rdiv_lt_0_compat; assumption).
  assert (Elast : INR (Z.to_nat num - 1) * step = tli).
  { rewrite INR_IZR_INZ. replace (Z.of_nat (Z.to_nat num - 1)) with (num - 1)%Z by lia.
    unfold step. field. lra. }
  rewrite linspace_eq in Hg by exact Hnum.
  apply (f_equal (fun o => match o with Some x => x | None => [] end)) in Hg.
  assert (Eg : map (fun k => Fin (INR k * step)) (seq 0 (Z.to_nat num)) = t).
  { rewrite <- Hg. apply map_ext. intros k. f_equal. unfold step. field. lra. }
  clear Hg.
  split; [exact Hpos |].
  assert (Hne : yint <> []).
  { intros ->. rewrite <- Eg in HL. rewrite length_map, length_seq in HL.
    simpl in HL. lia. }
  destruct (table_complete _ _ _ _ _ HL Hne HT) as (n' & -> & HN & _ & _ & _ & ->).
  assert (Hlen : length yint = Z.to_nat num).
  { rewrite <- HL, <- Eg, length_map, length_seq. reflexivity. }
  assert (Htime : forall k, (k < n')%nat ->
            l_time (line_of t yint k) = Fin (INR k * step)).
  { intros k Hk. unfold line_of. cbn [l_time]. apply nth_error_nth.
    rewrite <- Eg, nth_error_map, nth_error_seq.
    replace (k <? Z.to_nat num)%nat with true
      by (symmetry; apply Nat.ltb_lt; lia).
    reflexivity. }
  intros i li Hi. destruct (lines_from_nth _ _ _ _ _ Hi) as [Hin ->].
  split; [apply Htime; exact Hin |]. split.
  - rewrite <- Elast. apply Rmult_lt_compat_r; [exact Hpos |].
    apply lt_INR. lia.
  - intros j lj Hij Hj. destruct (lines_from_nth _ _ _ _ _ Hj) as [Hjn ->].
    split; [apply Htime; exact Hjn |].
    apply Rmult_lt_compat_r; [exact Hpos |]. apply lt_INR. exact Hij.
Qed.

Lemma printed_times_increasing_witness :
  exists t,
    linspace 0 4 5 = Some t /\
    let step := 4 / IZR (5 - 1) in
    0 < step /\
    forall i li, nth_error (lines_from t flight_yint 0 3) i = Some li ->
      l_time li = Fin (INR i * step) /\ INR i * step < 4 /\
      forall j lj, (i < j)%nat -> nth_error (lines_from t flight_yint 0 3) j = Some lj ->
        l_time lj = Fin (INR j * step) /\ INR i * step < INR j * step.
Proof.
  pose proof (linspace_eq 0 4 5 ltac:(lia)) as Eg.
  set (t := map _ (seq 0 (Z.to_nat 5))) in Eg.
  exists t. split; [exact Eg |].
  apply (printed_times_increasing 4 5 t flight_yint 3 1 (lines_from t flight_yint 0 3)).
  - lra.
  - lia.
  - exact Eg.
  - reflexivity.
  - apply flight_table_any. simpl. lia.
Defined.

(** ** Further properties of the refined events *)

(** Only one quadratic passes through three points of pairwise distinct
    abscissas. *)
Lemma fits_unique (a b c a' b' c' x0 x1 x2 w0 w1 w2 : R) :
  x0 <> x1 -> x0 <> x2 -> x1 <> x2 ->
  fits a b c x0 x1 x2 w0 w1 w2 -> fits a' b' c' x0 x1 x2 w0 w1 w2 ->
  a = a' /\ b = b' /\ c = c'.
Proof.
  unfold fits, quadR. intros H01 H02 H12 (E0 & E1 & E2) (F0 & F1 & F2).
  assert (G1 : (x0 - x1) * ((a - a') * (x0 + x1) + (b - b')) = 0) by lra.
  assert (G2 : (x0 - x2) * ((a - a') * (x0 + x2) + (b - b')) = 0) by lra.
  apply Rmult_integral in G1. destruct G1 as [G1 | G1]; [lra |].
  apply Rmult_integral in G2. destruct G2 as [G2 | G2]; [lra |].
  assert (G3 : (a - a') * (x1 - x2) = 0) by lra.
  apply Rmult_integral in G3. destruct G3 as [G3 | G3]; [| lra].
  assert (Ea : a = a') by lra. subst a'.
  assert (Eb : b = b') by lra. subst b'.
  repeat split. lra.
Qed.

(** X14.  The highest point is exact on a flight without drag: for three samples
    taken at pairwise distinct times on [x = vx * t],
    [y = vy * t - g * t^2 / 2] with the constant horizontal velocity [vx],
    [highest] returns the time [vy / g], the velocity [vx], the height
    [vy^2 / (2 g)] and the distance [vx * vy / g], whichever three samples
    these are. *)
Theorem highest_exact_without_drag (t : list float) (yint : list row) (m : Z)
    (g vx vy : R)
    (v0 u0 x0 y0 v1 u1 x1 y1 v2 u2 x2 y2 t0 t1 t2 : R) :
  getitem yint (m - 1) = Ok (Row (Fin v0) (Fin u0) (Fin x0) (Fin y0)) ->
  getitem yint m = Ok (Row (Fin v1) (Fin u1) (Fin x1) (Fin y1)) ->
  getitem yint (m + 1) = Ok (Row (Fin v2) (Fin u2) (Fin x2) (Fin y2)) ->
  getitem t (m - 1) = Ok (Fin t0) -> getitem t m = Ok (Fin t1) ->
  getitem t (m + 1) = Ok (Fin t2) ->
  g <> 0 -> vx <> 0 ->
  t0 <> t1 -> t0 <> t2 -> t1 <> t2 ->
  v0 = vx -> v1 = vx -> v2 = vx ->
  x0 = vx * t0 -> x1 = vx * t1 -> x2 = vx * t2 ->
  y0 = vy * t0 - g * t0 ^ 2 / 2 ->
  y1 = vy * t1 - g * t1 ^ 2 / 2 ->
  y2 = vy * t2 - g * t2 ^ 2 / 2 ->
  highest t yint m =
  Ok (Line (Fin (vy / g)) (Fin vx) (Fin 0) (Fin (vy ^ 2 / (2 * g))) (Fin (vx * vy / g))).
Proof.
  intros Y0 Y1 Y2 T0 T1 T2 Hg Hvx H01 H02 H12 -> -> -> Ex0 Ex1 Ex2 Ey0 Ey1 Ey2.
  assert (D01 : x0 <> x1) by (subst; intros E; apply H01; nra).
  assert (D02 : x0 <> x2) by (subst; intros E; apply H02; nra).
  assert (D12 : x1 <> x2) by (subst; intros E; apply H12; nra).
  destruct (highest_fit _ _ _ _ _ _ _ _ _ _ _ _ _ _ _ _ _ _
              Y0 Y1 Y2 T0 T1 T2 D01 D02 D12)
    as (a & b & c & at' & bt & ct & av & bv & cv & Fy & Ft & Fv & E & _).
  destruct (fits_unique a b c (- g / (2 * vx ^ 2)) (vy / vx) 0
              x0 x1 x2 y0 y1 y2 D01 D02 D12 Fy) as (-> & -> & ->).
  { subst. unfold fits, quadR. repeat split; field; exact Hvx. }
  destruct (fits_unique at' bt ct 0 (1 / vx) 0
              x0 x1 x2 t0 t1 t2 D01 D02 D12 Ft) as (-> & -> & ->).
  { subst. unfold fits, quadR. repeat split; field; exact Hvx. }
  destruct (fits_unique av bv cv 0 0 vx
              x0 x1 x2 vx vx vx D01 D02 D12 Fv) as (-> & -> & ->).
  { unfold fits, quadR. repeat split; ring. }
  assert (Ha : - g / (2 * vx ^ 2) <> 0).
  { intros H. apply Hg.
    apply (Rmult_eq_compat_r (2 * vx ^ 2)) in H.
    unfold Rdiv in H. rewrite Rmult_assoc, Rinv_l in H by nra. lra. }
  rewrite (E Ha). cbv zeta. unfold quadR.
  do 2 f_equal; f_equal; field; split; assumption.
Qed.

Lemma highest_exact_without_drag_witness :
  highest parabola_t parabola_yint 1 =
  Ok (Line (Fin (2 / 2)) (Fin 1) (Fin 0) (Fin (2 ^ 2 / (2 * 2))) (Fin (1 * 2 / 2))).
Proof.
  apply (highest_exact_without_drag parabola_t parabola_yint 1 2 1 2
           1 2 0 0 1 0 1 1 1 (-2) 2 0 0 1 2);
    try reflexivity; lra.
Defined.

Lemma fits_curvature (x0 x1 x2 y0 y1 y2 : R) :
  x0 <> x1 -> x0 <> x2 -> x1 <> x2 ->
  let a := curvature x0 y0 x1 y1 x2 y2 in
  let b := slope x0 y0 x1 y1 - a * (x0 + x1) in
  fits a b (y0 - a * x0 ^ 2 - b * x0) x0 x1 x2 y0 y1 y2.
Proof.
  intros H01 H02 H12. unfold fits, quadR, curvature, slope.
  repeat split; field; repeat split; lra.
Qed.

Lemma quad_vertex (a b c x : R) :
  a <> 0 ->
  quadR a b c x - quadR a b c (- b / (2 * a)) = a * (x - - b / (2 * a)) ^ 2.
Proof. intros H. unfold quadR. field. exact H. Qed.

(** X15.  [highest] reports the stationary point of the fit without looking at
    its nature: when the three samples curve downward the reported height
    is at least each of their altitudes, and when they curve upward it is
    at most each of them. *)
Theorem highest_is_stationary_point (t : list float) (yint : list row) (m : Z)
    (v0 u0 x0 y0 v1 u1 x1 y1 v2 u2 x2 y2 t0 t1 t2 : R) :
  getitem yint (m - 1) = Ok (Row (Fin v0) (Fin u0) (Fin x0) (Fin y0)) ->
  getitem yint m = Ok (Row (Fin v1) (Fin u1) (Fin x1) (Fin y1)) ->
  getitem yint (m + 1) = Ok (Row (Fin v2) (Fin u2) (Fin x2) (Fin y2)) ->
  getitem t (m - 1) = Ok (Fin t0) -> getitem t m = Ok (Fin t1) ->
  getitem t (m + 1) = Ok (Fin t2) ->
  x0 <> x1 -> x0 <> x2 -> x1 <> x2 ->
  curvature x0 y0 x1 y1 x2 y2 <> 0 ->
  exists ht hv hy hx : R,
    highest t yint m = Ok (Line (Fin ht) (Fin hv) (Fin 0) (Fin hy) (Fin hx)) /\
    (curvature x0 y0 x1 y1 x2 y2 < 0 -> y0 <= hy /\ y1 <= hy /\ y2 <= hy) /\
    (0 < curvature x0 y0 x1 y1 x2 y2 -> hy <= y0 /\ hy <= y1 /\ hy <= y2).
Proof.
  intros Y0 Y1 Y2 T0 T1 T2 H01 H02 H12 Hc.
  destruct (highest_fit _ _ _ _ _ _ _ _ _ _ _ _ _ _ _ _ _ _
              Y0 Y1 Y2 T0 T1 T2 H01 H02 H12)
    as (a & b & c & at' & bt & ct & av & bv & cv & Fy & Ft & Fv & E & _).
  pose proof (fits_curvature x0 x1 x2 y0 y1 y2 H01 H02 H12) as Fc. cbv zeta in Fc.
  destruct (fits_unique _ _ _ _ _ _ _ _ _ _ _ _ H01 H02 H12 Fy Fc) as (Ea & _ & _).
  rewrite <- Ea in *. clear Ea Fc.
  specialize (E Hc). cbv zeta in E.
  eexists _, _, _, _. split; [exact E |].
  destruct Fy as (F0 & F1 & F2).
  pose proof (quad_vertex a b c x0 Hc) as V0.
  pose proof (quad_vertex a b c x1 Hc) as V1.
  pose proof (quad_vertex a b c x2 Hc) as V2.
  pose proof (pow2_ge_0 (x0 - - b / (2 * a))) as P0.
  pose proof (pow2_ge_0 (x1 - - b / (2 * a))) as P1.
  pose proof (pow2_ge_0 (x2 - - b / (2 * a))) as P2.
  rewrite F0 in V0. rewrite F1 in V1. rewrite F2 in V2.
  split; intros Ha; repeat split; nra.
Qed.

Lemma highest_is_stationary_point_witness :
  exists ht hv hy hx : R,
    highest flight_t flight_yint 1 = Ok (Line (Fin ht) (Fin hv) (Fin 0) (Fin hy) (Fin hx)) /\
    (curvature 0 0 1 2 2 1 < 0 -> 0 <= hy /\ 2 <= hy /\ 1 <= hy) /\
    (0 < curvature 0 0 1 2 2 1 -> hy <= 0 /\ hy <= 2 /\ hy <= 1).
Proof.
  apply (highest_is_stationary_point flight_t flight_yint 1
           1 2 0 0 1 1 1 2 1 (-1) 2 1 0 1 2);
    try reflexivity; try lra.
  unfold curvature, slope. lra.
Defined.

(** X17.  A bracket sample whose altitude is exactly zero is returned as the
    impact point, also when it is the first of the three: the fits against
    the altitude pass through it. *)
Theorem impact_reproduces_ground_sample (t : list float) (yint : list row) (n : Z)
    (v0 u0 x0 y0 v1 u1 x1 y1 v2 u2 x2 y2 t0 t1 t2 : R) :
  getitem yint (n - 2) = Ok (Row (Fin v0) (Fin u0) (Fin x0) (Fin y0)) ->
  getitem yint (n - 1) = Ok (Row (Fin v1) (Fin u1) (Fin x1) (Fin y1)) ->
  getitem yint n = Ok (Row (Fin v2) (Fin u2) (Fin x2) (Fin y2)) ->
  getitem t (n - 2) = Ok (Fin t0) -> getitem t (n - 1) = Ok (Fin t1) ->
  getitem t n = Ok (Fin t2) ->
  y0 <> y1 -> y0 <> y2 -> y1 <> y2 ->
  (y0 = 0 ->
   impact t yint n =
   Ok (Line (Fin t0) (Fin (sqrt (v0 ^ 2 + u0 ^ 2)))
         (impact_angle (Fin v0) (Fin u0)) (Fin 0) (Fin x0))) /\
  (y1 = 0 ->
   impact t yint n =
   Ok (Line (Fin t1) (Fin (sqrt (v1 ^ 2 + u1 ^ 2)))
         (impact_angle (Fin v1) (Fin u1)) (Fin 0) (Fin x1))).
Proof.
  intros Y0 Y1 Y2 T0 T1 T2 H01 H02 H12.
  destruct (impact_fit _ _ _ _ _ _ _ _ _ _ _ _ _ _ _ _ _ _
              Y0 Y1 Y2 T0 T1 T2 H01 H02 H12)
    as (ax & bx & cx & at' & bt & ct & av & bv & cv & au & bu & cu
        & (Fx0 & Fx1 & _) & (Ft0 & Ft1 & _) & (Fv0 & Fv1 & _) & (Fu0 & Fu1 & _) & E).
  cbv zeta in E. split; intros Hz; rewrite E.
  - subst y0. rewrite Fx0, Ft0, Fv0, Fu0. reflexivity.
  - subst y1. rewrite Fx1, Ft1, Fv1, Fu1. reflexivity.
Qed.

Lemma impact_reproduces_ground_sample_witness :
  (0 = 0 ->
   impact flight_t flight_yint 2 =
   Ok (Line (Fin 0) (Fin (sqrt (1 ^ 2 + 2 ^ 2)))
         (impact_angle (Fin 1) (Fin 2)) (Fin 0) (Fin 0))) /\
  (2 = 0 ->
   impact flight_t flight_yint 2 =
   Ok (Line (Fin 1) (Fin (sqrt (1 ^ 2 + 1 ^ 2)))
         (impact_angle (Fin 1) (Fin 1)) (Fin 0) (Fin 1))).
Proof.
  apply (impact_reproduces_ground_sample flight_t flight_yint 2
           1 2 0 0 1 1 1 2 1 (-1) 2 1 0 1 2);
    try reflexivity; lra.
Defined.

(** ** Energy and the apex line *)

(** X3.  Along [derv] the mechanical energy per unit mass,
    [(vx^2 + vy^2) / 2 + g * y], decreases at the rate [dc * speed^3]:
    with the four differentials [(ax, ay, x', y')] the sum
    [vx * ax + vy * ay + g * y'] is [- g / tv^2 * speed^3], which is
    negative. *)
Theorem derv_dissipates_energy (tv vx vy x y : R) (t : float) :
  tv <> 0 -> (vx, vy) <> (0, 0) ->
  exists ax ay x' y' : R,
    derv (Fin tv) (Row (Fin vx) (Fin vy) (Fin x) (Fin y)) t =
      Row (Fin ax) (Fin ay) (Fin x') (Fin y') /\
    vx * ax + vy * ay + 980665 / 100000 * y' =
      - (980665 / 100000 / tv ^ 2 * sqrt (vx ^ 2 + vy ^ 2) ^ 3) /\
    vx * ax + vy * ay + 980665 / 100000 * y' < 0.
Proof.
  intros Htv Hv. pose proof (speed_pos vx vy Hv) as Hs.
  eexists _, _, _, _. split; [apply derv_fin; assumption |].
  assert (Hsq : sqrt (vx ^ 2 + vy ^ 2) ^ 2 = vx ^ 2 + vy ^ 2).
  { apply pow2_sqrt. nra. }
  set (s := sqrt (vx ^ 2 + vy ^ 2)) in *.
  assert (Hk : 0 < 980665 / 100000 / tv ^ 2).
  { apply Rdiv_lt_0_compat; [lra | nra]. }
  set (k := 980665 / 100000 / tv ^ 2) in *.
  assert (E : vx * - (k * s * vx) + vy * (- (980665 / 100000) - k * s * vy)
              + 980665 / 100000 * vy = - (k * s ^ 3)).
  { replace (s ^ 3) with (s * s ^ 2) by ring. rewrite Hsq. ring. }
  split; [exact E |]. rewrite E.
  assert (0 < k * s ^ 3) by (apply Rmult_lt_0_compat; [exact Hk | apply pow_lt; exact Hs]).
  lra.
Qed.

Lemma derv_dissipates_energy_witness :
  exists ax ay x' y' : R,
    derv (Fin 150) (Row (Fin 3) (Fin 4) (Fin 0) (Fin 0)) (Fin 0) =
      Row (Fin ax) (Fin ay) (Fin x') (Fin y') /\
    3 * ax + 4 * ay + 980665 / 100000 * y' =
      - (980665 / 100000 / 150 ^ 2 * sqrt (3 ^ 2 + 4 ^ 2) ^ 3) /\
    3 * ax + 4 * ay + 980665 / 100000 * y' < 0.
Proof.
  apply (derv_dissipates_energy 150 3 4 0 0 (Fin 0)).
  - lra.
  - intros H. injection H as H3 H4. lra.
Defined.

Lemma m_after_char (yint : list row) :
  forall (j k : nat) (m0 : Z),
    (m_after yint k j m0 = m0 /\
     forall i, (k <= i <= k + j)%nat -> sign_change yint i = false) \/
    (exists i, (k <= i <= k + j)%nat /\ m_after yint k j m0 = Z.of_nat i /\
               sign_change yint i = true /\
               forall i', (i < i' <= k + j)%nat -> sign_change yint i' = false).
Proof.
  induction j as [| j IH]; intros k m0; simpl.
  - destruct (sign_change yint k) eqn:E.
    + right. exists k. repeat split; try lia; try assumption.
    + left. split; [reflexivity |]. intros i Hi. assert (i = k) by lia. subst i. exact E.
  - destruct (IH (S k) (if sign_change yint k then Z.of_nat k else m0))
      as [[Em Hnone] | (i & Hi & Em & Hc & Hlast)].
    + destruct (sign_change yint k) eqn:E.
      * right. exists k. repeat split; try lia; try assumption.
        intros i' Hi'. apply Hnone. lia.
      * left. split; [exact Em |]. intros i Hi.
        destruct (Nat.eq_dec i k) as [-> | Hne]; [exact E | apply Hnone; lia].
    + right. exists i. repeat split; try lia; try assumption.
      intros i' Hi'. apply Hlast. lia.
Qed.

(** X12.  When the loop returns [(n, m, out)], [m] is the last line up to [n]
    whose sign test succeeded, and it is [0] when none did. *)
Theorem table_apex_characterised (t : list float) (yint : list row)
    (n m : Z) (out : list line) :
  length t = length yint -> yint <> [] ->
  table t yint = Ok (n, m, out) ->
  (m = 0%Z /\
   forall i, (Z.of_nat i <= n)%Z -> sign_change yint i = false) \/
  (exists i, m = Z.of_nat i /\ (Z.of_nat i <= n)%Z /\
             sign_change yint i = true /\
             forall i', (i < i')%nat -> (Z.of_nat i' <= n)%Z ->
                        sign_change yint i' = false).
Proof.
  intros HL Hne HT.
  destruct (table_complete _ _ _ _ _ HL Hne HT) as (n' & -> & _ & _ & _ & -> & _).
  destruct (m_after_char yint n' 0 0%Z) as [[Em Hnone] | (i & Hi & Em & Hc & Hlast)].
  - left. split; [exact Em |]. intros i Hi. apply Hnone. lia.
  - right. exists i. repeat split; try assumption; try lia.
    intros i' Hlt Hle. apply Hlast. lia.
Qed.

Lemma table_apex_characterised_witness :
  (1%Z = 0%Z /\
   forall i, (Z.of_nat i <= 3)%Z -> sign_change flight_yint i = false) \/
  (exists i, 1%Z = Z.of_nat i /\ (Z.of_nat i <= 3)%Z /\
             sign_change flight_yint i = true /\
             forall i', (i < i')%nat -> (Z.of_nat i' <= 3)%Z ->
                        sign_change flight_yint i' = false).
Proof.
  apply (table_apex_characterised flight_t flight_yint 3 1
           (lines_from flight_t flight_yint 0 3)).
  - reflexivity.
  - discriminate.
  - exact flight_table.
Defined.
